(** * ClinicalTransformerRelationExtraction: truncation, schedule, training
      and data loading, embedded from [src/data_utils.py] and [src/task.py].

    Texts are ASCII strings, Python integers are [Z], the floats of the
    learning-rate schedule and of the losses are idealised as rationals [Q],
    Python exceptions are the [Raise] branch of [result], dictionaries and
    sets are [gmap] and [gset]. *)

From Stdlib Require Import ZArith QArith Qminmax Lia.
From Stdlib Require Import Ascii String List.
From stdpp Require Import base option list gmap strings sets fin_maps pretty.

Import ListNotations.

Local Open Scope string_scope.
Local Open Scope list_scope.
Local Open Scope nat_scope.

(** ** Exceptions *)

Inductive exn : Type :=
| ValueError
| IndexError
| ZeroDivisionError
| TypeError
| KeyError.

Inductive result (A : Type) : Type :=
| Ok (a : A)
| Raise (e : exn).

Arguments Ok {A} a.
Arguments Raise {A} e.

#[global] Instance result_ret : MRet result := fun A a => Ok a.
#[global] Instance result_bind : MBind result := fun A B f r =>
  match r with
  | Ok a => f a
  | Raise e => Raise e
  end.

(** [enumerate(l)], counting from [i]. *)
Fixpoint enumerate_from {A : Type} (i : nat) (l : list A) : list (nat * A) :=
  match l with
  | [] => []
  | x :: r => (i, x) :: enumerate_from (S i) r
  end.

Lemma enumerate_from_app {A : Type} (i : nat) (l1 l2 : list A) :
  enumerate_from i (l1 ++ l2)
  = enumerate_from i l1 ++ enumerate_from (i + length l1) l2.
Proof.
  revert i. induction l1 as [|x l1 IH]; intros i; simpl.
  - now rewrite Nat.add_0_r.
  - now rewrite IH, Nat.add_succ_r.
Qed.

(** ** Python string operations used by [data_utils.py] *)

Module Text.

(** [s.split(" ")]: cut at every single space; never returns the empty list. *)
Fixpoint split (s : string) : list string :=
  match s with
  | EmptyString => [EmptyString]
  | String c s' =>
      if Ascii.eqb c " " then EmptyString :: split s'
      else match split s' with
           | [] => [String c EmptyString]
           | w :: ws => String c w :: ws
           end
  end.

(** [" ".join(ws)]. *)
Fixpoint join (ws : list string) : string :=
  match ws with
  | [] => EmptyString
  | [w] => w
  | w :: ws' => (w ++ String " " (join ws'))%string
  end.

(** [c.lower()] on ASCII: 'A'..'Z' go to 'a'..'z'. *)
Definition lower_ascii (c : ascii) : ascii :=
  let n := N_of_ascii c in
  if ((65 <=? n) && (n <=? 90))%N then ascii_of_N (n + 32) else c.

Fixpoint lower (s : string) : string :=
  match s with
  | EmptyString => EmptyString
  | String c s' => String (lower_ascii c) (lower s')
  end.

(** The two alternatives of the pattern ["\[ \* \*|\* \* \]"]. *)
Definition marker_open : string := "[ * *".
Definition marker_close : string := "* * ]".

Definition marker_here (s : string) : bool :=
  String.prefix marker_open s || String.prefix marker_close s.

(** [re.sub("\[ \* \*|\* \* \]", "", s)]: scan from the left; where one of
    the two five-character markers starts, drop it and go on after it.
    [skip] counts the characters of the current match still to drop. *)
Fixpoint re_sub_from (skip : nat) (s : string) : string :=
  match s with
  | EmptyString => EmptyString
  | String c s' =>
      match skip with
      | S k => re_sub_from k s'
      | O => if marker_here s then re_sub_from 4 s'
             else String c (re_sub_from 0 s')
      end
  end.

Definition re_sub (s : string) : string := re_sub_from 0 s.

(** Does one of the two markers occur anywhere in [s]? *)
Fixpoint contains_marker (s : string) : bool :=
  match s with
  | EmptyString => false
  | String _ s' => marker_here s || contains_marker s'
  end.

(** No character of [w] is a space. *)
Fixpoint no_space (w : string) : bool :=
  match w with
  | EmptyString => true
  | String c w' => negb (Ascii.eqb c " ") && no_space w'
  end.

Lemma split_not_nil (s : string) : split s <> [].
Proof.
  induction s as [|c s IH]; simpl; [discriminate|].
  destruct (Ascii.eqb c " "); [discriminate|].
  destruct (split s); discriminate.
Qed.

Lemma split_length_pos (s : string) : 1 <= length (split s).
Proof.
  pose proof (split_not_nil s). destruct (split s); simpl; [congruence|lia].
Qed.

Lemma split_no_space (s : string) :
  Forall (fun w => no_space w = true) (split s).
Proof.
  induction s as [|c s IH]; simpl.
  - repeat constructor.
  - destruct (Ascii.eqb c " ") eqn:E.
    + constructor; [reflexivity|exact IH].
    + destruct (split s) as [|w ws]; [repeat constructor; simpl; now rewrite E|].
      inversion IH; subst. constructor; [|assumption].
      simpl. now rewrite E.
Qed.

Lemma split_word (w : string) : no_space w = true -> split w = [w].
Proof.
  induction w as [|c w IH]; simpl; [reflexivity|].
  intros H. apply andb_prop in H as [Hc Hw].
  apply negb_true_iff in Hc. rewrite Hc, (IH Hw). reflexivity.
Qed.

Lemma split_app_space (w s : string) :
  no_space w = true -> split (w ++ String " " s)%string = w :: split s.
Proof.
  induction w as [|c w IH]; simpl; [reflexivity|].
  intros H. apply andb_prop in H as [Hc Hw].
  apply negb_true_iff in Hc. rewrite Hc, (IH Hw). reflexivity.
Qed.

(** Splitting what was joined gives the words back, for a non-empty list of
    words without spaces (what one [pop] leaves of a split text). *)
Lemma split_join (ws : list string) :
  ws <> [] -> Forall (fun w => no_space w = true) ws -> split (join ws) = ws.
Proof.
  induction ws as [|w ws IH]; [congruence|].
  intros _ H. inversion H as [|? ? Hw Hws]; subst.
  destruct ws as [|w' ws].
  - simpl. now apply split_word.
  - change (join (w :: w' :: ws)) with (w ++ String " " (join (w' :: ws)))%string.
    rewrite split_app_space by assumption.
    f_equal. apply IH; [discriminate|assumption].
Qed.

Lemma join_split (s : string) : join (split s) = s.
Proof.
  induction s as [|c s IH]; simpl; [reflexivity|].
  destruct (Ascii.eqb c " ") eqn:E.
  - apply Ascii.eqb_eq in E. subst c.
    pose proof (split_not_nil s) as Hn.
    destruct (split s) as [|w ws]; [congruence|].
    change (join ("" :: w :: ws)) with (String " " (join (w :: ws))).
    now rewrite IH.
  - pose proof (split_not_nil s) as Hn.
    destruct (split s) as [|w ws]; [congruence|].
    destruct ws as [|w' ws]; simpl in *; now rewrite <- IH.
Qed.

(** A text without marker is left as it is by [re_sub]. *)
Lemma re_sub_no_marker (s : string) :
  contains_marker s = false -> re_sub s = s.
Proof.
  unfold re_sub. induction s as [|c s IH]; [reflexivity|].
  intros H. change (contains_marker (String c s))
    with (marker_here (String c s) || contains_marker s) in H.
  apply orb_false_elim in H as [H1 H2].
  change (re_sub_from 0 (String c s))
    with (if marker_here (String c s) then re_sub_from 4 s
          else String c (re_sub_from 0 s)).
  rewrite H1, (IH H2). reflexivity.
Qed.

Example split_ex : split "a  b" = ["a"; ""; "b"].
Proof. reflexivity. Qed.
Example re_sub_ex : re_sub "x [ * * y * * ] z" = "x  y  z".
Proof. reflexivity. Qed.
Example lower_ex : lower "[S1]" = "[s1]".
Proof. reflexivity. Qed.

End Text.

(** ** Sequence truncation: [_process_seq_len] of both processors *)

Module Truncation.
Import Text.

(** Example values: a tokenizer that gives one token per word, and the four
    boundary tags the data of the repository is marked with. *)
Definition word_tokenize (s : string) : list string := split s.
Definition tags4 : list string := ["[s1]"; "[e1]"; "[s2]"; "[e2]"].

Section Processor.

(** The tokenizer is a black box: [self.tokenizer.tokenize]. *)
Context {token : Type}.
Variable tokenize : string -> list token.
(** [config.SPEC_TAGS], a constant of a module that is not in the sources. *)
Variable SPEC_TAGS : list string.
(** [self.max_seq_len]. *)
Variable max_seq_len : Z.

(** [w.lower() in SPEC_TAGS]. *)
Definition is_tag (w : string) : bool :=
  existsb (String.eqb (lower w)) SPEC_TAGS.

(** [[idx for (idx, w) in enumerate(ws) if w.lower() in SPEC_TAGS]]. *)
Definition tag_indices_from (i : nat) (ws : list string) : list nat :=
  map fst (List.filter (fun p => is_tag (snd p)) (enumerate_from i ws)).

Definition tag_indices (ws : list string) : list nat := tag_indices_from 0 ws.

(** [x, y = l]: [ValueError] unless [l] has exactly two elements. *)
Definition unpack2 {A : Type} (l : list A) : result (A * A) :=
  match l with
  | [x; y] => Ok (x, y)
  | _ => Raise ValueError
  end.

(** [w.pop(0)] and [w.pop(-1)], as the list that is left. *)
Definition pop_first (w : list string) : result (list string) :=
  match w with
  | [] => Raise IndexError
  | _ :: r => Ok r
  end.

Definition pop_last (w : list string) : result (list string) :=
  match w with
  | [] => Raise IndexError
  | _ :: _ => Ok (removelast w)
  end.

(** The block the two processors share:
    [ss, se = 0, len(w); a = t_first - ss; b = se - t_second;
     if a > b: w.pop(0) else: w.pop(-1)]. *)
Definition pop_longer_side (w : list string) (t_first t_second : nat)
  : result (list string) :=
  let ss := 0%Z in
  let se := Z.of_nat (length w) in
  let a := (Z.of_nat t_first - ss)%Z in
  let b := (se - Z.of_nat t_second)%Z in
  if (a >? b)%Z then pop_first w else pop_last w.

(** One iteration of the loop of [RelationDataFormatUniProcessor]. *)
Definition Uni_body (text_a : string) : result string :=
  let w1 := split text_a in
  '(t1, t2) ← unpack2 (tag_indices w1);
  w1' ← pop_longer_side w1 t1 t2;
  Ok (join w1').

(** One iteration of the loop of [RelationDataFormatSepProcessor]: both
    unpackings come before the first [pop]. *)
Definition Sep_body (text_a text_b : string) : result (string * string) :=
  let w1 := split text_a in
  let w2 := split text_b in
  '(t1, t2) ← unpack2 (tag_indices w1);
  '(t3, t4) ← unpack2 (tag_indices w2);
  w1' ← pop_longer_side w1 t1 t2;
  w2' ← pop_longer_side w2 t3 t4;
  Ok (join w1', join w2').

(** [len(tokenize(text_a) + tokenize(text_b)) > max_seq_len] and its
    one-text form. *)
Definition Sep_too_long (text_a text_b : string) : bool :=
  (Z.of_nat (length (tokenize text_a ++ tokenize text_b)) >? max_seq_len)%Z.

Definition Uni_too_long (text_a : string) : bool :=
  (Z.of_nat (length (tokenize text_a)) >? max_seq_len)%Z.

(** The [while] loops. [None] means the iteration bound [fuel] was used up;
    [Sep_while_enough] and [Uni_while_enough] show that the bound chosen in
    [_process_seq_len] below is never used up. *)
Fixpoint Sep_while (fuel : nat) (text_a text_b : string)
  : option (result (string * string)) :=
  match fuel with
  | O => None
  | S fuel' =>
      if Sep_too_long text_a text_b then
        match Sep_body text_a text_b with
        | Ok (text_a', text_b') => Sep_while fuel' text_a' text_b'
        | Raise e => Some (Raise e)
        end
      else Some (Ok (text_a, text_b))
  end.

Fixpoint Uni_while (fuel : nat) (text_a : string) : option (result string) :=
  match fuel with
  | O => None
  | S fuel' =>
      if Uni_too_long text_a then
        match Uni_body text_a with
        | Ok text_a' => Uni_while fuel' text_a'
        | Raise e => Some (Raise e)
        end
      else Some (Ok text_a)
  end.

(** [RelationDataFormatSepProcessor._process_seq_len]. *)
Definition Sep_process_seq_len (text_a text_b : string)
  : option (result (string * string)) :=
  let text_a := re_sub text_a in
  let text_b := re_sub text_b in
  Sep_while (length (split text_a)) text_a text_b.

(** [RelationDataFormatUniProcessor._process_seq_len]. *)
Definition Uni_process_seq_len (text_a : string) : option (result string) :=
  let text_a := re_sub text_a in
  Uni_while (length (split text_a)) text_a.

(** The texts after [n] iterations of the loop body, whatever the tokenizer. *)
Fixpoint Uni_iter (n : nat) (text_a : string) : result string :=
  match n with
  | O => Ok text_a
  | S n' => text_a' ← Uni_body text_a; Uni_iter n' text_a'
  end.

Fixpoint Sep_iter (n : nat) (text_a text_b : string)
  : result (string * string) :=
  match n with
  | O => Ok (text_a, text_b)
  | S n' => '(text_a', text_b') ← Sep_body text_a text_b;
            Sep_iter n' text_a' text_b'
  end.

(** The tag words of a word list, in order. *)
Definition tag_words (ws : list string) : list string := List.filter is_tag ws.

(** Number of words before the first tag plus number of words after the
    second one: the words outside the marked span. *)
Definition outside (ws : list string) : nat :=
  match tag_indices ws with
  | [t1; t2] => t1 + (length ws - 1 - t2)
  | _ => 0
  end.

(** Number of words of a text whose lowercase form is in [SPEC_TAGS]. *)
Definition tag_count (text : string) : nat := length (tag_words (split text)).

(** *** Tag indices *)

Lemma tag_indices_from_cons (i : nat) (x : string) (r : list string) :
  tag_indices_from i (x :: r)
  = if is_tag x then i :: tag_indices_from (S i) r
    else tag_indices_from (S i) r.
Proof. unfold tag_indices_from. simpl. destruct (is_tag x); reflexivity. Qed.

Lemma tag_indices_from_S (i : nat) (ws : list string) :
  tag_indices_from (S i) ws = map S (tag_indices_from i ws).
Proof.
  revert i. induction ws as [|x r IH]; intros i; [reflexivity|].
  rewrite !tag_indices_from_cons. destruct (is_tag x); simpl; now rewrite IH.
Qed.

Lemma tag_indices_from_app (i : nat) (l1 l2 : list string) :
  tag_indices_from i (l1 ++ l2)
  = tag_indices_from i l1 ++ tag_indices_from (i + length l1) l2.
Proof.
  revert i. induction l1 as [|x r IH]; intros i; simpl.
  - now rewrite Nat.add_0_r.
  - rewrite !tag_indices_from_cons, IH, Nat.add_succ_r.
    destruct (is_tag x); reflexivity.
Qed.

Lemma tag_indices_from_bound (i t : nat) (ws : list string) :
  In t (tag_indices_from i ws) -> i <= t < i + length ws.
Proof.
  revert i. induction ws as [|x r IH]; intros i; [intros []|].
  rewrite tag_indices_from_cons. simpl length.
  destruct (is_tag x); simpl; intros H.
  - destruct H as [->|H]; [lia|]. apply IH in H. lia.
  - apply IH in H. lia.
Qed.

Lemma tag_indices_length (i : nat) (ws : list string) :
  length (tag_indices_from i ws) = length (tag_words ws).
Proof.
  revert i. induction ws as [|x r IH]; intros i; [reflexivity|].
  rewrite tag_indices_from_cons. unfold tag_words in *. simpl.
  destruct (is_tag x); simpl; now rewrite IH.
Qed.

Lemma tag_words_length_le (ws : list string) :
  length (tag_words ws) <= length ws.
Proof.
  unfold tag_words. induction ws as [|x r IH]; simpl; [lia|].
  destruct (is_tag x); simpl; lia.
Qed.

Lemma two_tags_length (ws : list string) (t1 t2 : nat) :
  tag_indices ws = [t1; t2] -> 2 <= length ws /\ t2 < length ws.
Proof.
  intros H. split.
  - pose proof (tag_indices_length 0 ws) as Hl.
    pose proof (tag_words_length_le ws).
    unfold tag_indices in H. rewrite H in Hl. simpl in Hl. lia.
  - pose proof (tag_indices_from_bound 0 t2 ws) as Hb.
    unfold tag_indices in H. rewrite H in Hb. simpl in Hb.
    destruct Hb; [auto|lia].
Qed.

(** Popping a first word that stands before the first tag. *)
Lemma tag_indices_pop_first (x : string) (r : list string) (t1 t2 : nat) :
  tag_indices (x :: r) = [t1; t2] -> 0 < t1 ->
  is_tag x = false /\
  exists a b, t1 = S a /\ t2 = S b /\ tag_indices r = [a; b].
Proof.
  unfold tag_indices. rewrite tag_indices_from_cons.
  destruct (is_tag x); intros H Hpos.
  - injection H as H _. lia.
  - split; [reflexivity|]. rewrite tag_indices_from_S in H.
    destruct (tag_indices_from 0 r) as [|a [|b [|c l]]]; simpl in H;
      try discriminate.
    injection H as <- <-. now exists a, b.
Qed.

Lemma removelast_snoc (w : list string) :
  w <> [] -> exists x, w = removelast w ++ [x].
Proof.
  intros H. exists (List.last w EmptyString). now apply app_removelast_last.
Qed.

Lemma pop_last_ok (w : list string) :
  w <> [] -> pop_last w = Ok (removelast w).
Proof. destruct w; [congruence|reflexivity]. Qed.

(** Popping a last word that stands after the second tag. *)
Lemma tag_indices_pop_last (w : list string) (t1 t2 : nat) :
  tag_indices w = [t1; t2] -> t2 < length w - 1 ->
  tag_indices (removelast w) = [t1; t2] /\
  tag_words (removelast w) = tag_words w /\
  length w = S (length (removelast w)).
Proof.
  intros H Hlt.
  assert (Hne : w <> []) by (intros ->; discriminate).
  destruct (removelast_snoc w Hne) as [x Hx].
  remember (removelast w) as w' eqn:Ew'. clear Ew' Hne. subst w.
  rewrite length_app in *. simpl in Hlt.
  unfold tag_indices in *. rewrite tag_indices_from_app in H.
  rewrite tag_indices_from_cons in H. simpl in H.
  unfold tag_words. rewrite List.filter_app. simpl.
  destruct (is_tag x).
  - exfalso.
    destruct (tag_indices_from 0 w') as [|a [|b [|c l]]]; simpl in H;
      try discriminate; try (destruct l; discriminate).
    injection H as _ H. lia.
  - unfold tag_indices_from in H at 2. simpl in H.
    rewrite !app_nil_r in *. repeat split; auto. simpl. lia.
Qed.

(** *** One [pop] on a text with two tags *)

(** With two tags in the words, the [pop] succeeds and takes exactly one
    word away; what is left is one of the two ends cut off. *)
Lemma pop_longer_side_ok (w : list string) (t1 t2 : nat) :
  tag_indices w = [t1; t2] ->
  exists w', pop_longer_side w t1 t2 = Ok w' /\
             length w = S (length w') /\
             w' <> [] /\
             (forall P : string -> Prop, Forall P w -> Forall P w').
Proof.
  intros H. destruct (two_tags_length w t1 t2 H) as [Hlen _].
  unfold pop_longer_side.
  destruct (Z.of_nat t1 - 0 >? Z.of_nat (length w) - Z.of_nat t2)%Z.
  - destruct w as [|x r]; [simpl in Hlen; lia|].
    exists r. simpl in *. repeat split; auto.
    + destruct r; [simpl in Hlen; lia|discriminate].
    + intros P HP. now inversion HP.
  - assert (Hne : w <> []) by (intros ->; simpl in Hlen; lia).
    exists (removelast w). rewrite (pop_last_ok w Hne).
    destruct (removelast_snoc w Hne) as [y Hy].
    assert (Hl : length w = S (length (removelast w))).
    { rewrite Hy at 1. rewrite length_app. simpl. lia. }
    repeat split; auto.
    + intros E. rewrite E in Hl. simpl in Hl. lia.
    + intros P HP. rewrite Hy in HP. now apply Forall_app in HP as [HP _].
Qed.

(** While at least two words stand outside the marked span, the [pop]
    takes one of them and leaves both tags in place. *)
Lemma pop_longer_side_safe (w : list string) (t1 t2 : nat) :
  tag_indices w = [t1; t2] -> 2 <= outside w ->
  exists w' t1' t2',
    pop_longer_side w t1 t2 = Ok w' /\
    tag_indices w' = [t1'; t2'] /\
    outside w' = outside w - 1 /\
    tag_words w' = tag_words w.
Proof.
  intros H Hout. destruct (two_tags_length w t1 t2 H) as [Hlen Ht2].
  unfold outside in *. rewrite H in *.
  unfold pop_longer_side.
  destruct (Z.gtb_spec (Z.of_nat t1 - 0) (Z.of_nat (length w) - Z.of_nat t2))
    as [Hgt|Hle].
  - destruct w as [|x r]; [simpl in Hlen; lia|].
    destruct (tag_indices_pop_first x r t1 t2 H ltac:(lia))
      as (Hx & a & b & -> & -> & Hr).
    exists r, a, b. simpl pop_first. rewrite Hr.
    repeat split; auto.
    + simpl length. lia.
    + unfold tag_words. simpl. now rewrite Hx.
  - assert (Hlt : t2 < length w - 1) by lia.
    destruct (tag_indices_pop_last w t1 t2 H Hlt) as (Hi & Hw & Hl).
    exists (removelast w), t1, t2. rewrite Hi.
    repeat split; auto.
    + apply pop_last_ok. intros ->. discriminate.
    + lia.
Qed.

(** *** One iteration on texts *)

Lemma tag_count_two (text : string) :
  tag_count text = 2 <-> exists t1 t2, tag_indices (split text) = [t1; t2].
Proof.
  unfold tag_count, tag_indices.
  rewrite <- (tag_indices_length 0). split.
  - destruct (tag_indices_from 0 (split text)) as [|a [|b [|c l]]];
      simpl; try discriminate. intros _. now exists a, b.
  - intros (t1 & t2 & ->). reflexivity.
Qed.

Lemma unpack2_Ok {A : Type} (l : list A) (x y : A) :
  unpack2 l = Ok (x, y) <-> l = [x; y].
Proof.
  split; [|intros ->; reflexivity].
  destruct l as [|a [|b [|c l]]]; simpl; try discriminate.
  now intros [= -> ->].
Qed.

Lemma unpack2_Raise {A : Type} (l : list A) :
  length l <> 2 -> unpack2 l = Raise ValueError.
Proof. destruct l as [|a [|b [|c l]]]; simpl; congruence. Qed.

Lemma Uni_body_inv (text text' : string) :
  Uni_body text = Ok text' <->
  exists t1 t2 w',
    tag_indices (split text) = [t1; t2] /\
    pop_longer_side (split text) t1 t2 = Ok w' /\
    text' = join w'.
Proof.
  unfold Uni_body. split.
  - destruct (unpack2 (tag_indices (split text))) as [[t1 t2]|e] eqn:E;
      simpl; [|discriminate].
    apply unpack2_Ok in E.
    destruct (pop_longer_side (split text) t1 t2) as [w'|e] eqn:E';
      simpl; [|discriminate].
    intros [= <-]. now exists t1, t2, w'.
  - intros (t1 & t2 & w' & H1 & H2 & ->).
    rewrite H1. simpl. rewrite H2. reflexivity.
Qed.

Lemma Sep_body_inv (text_a text_b text_a' text_b' : string) :
  Sep_body text_a text_b = Ok (text_a', text_b') <->
  Uni_body text_a = Ok text_a' /\ Uni_body text_b = Ok text_b'.
Proof.
  unfold Sep_body, Uni_body.
  destruct (unpack2 (tag_indices (split text_a))) as [[t1 t2]|e1]; simpl;
    [|split; [discriminate|intros [? _]; discriminate]].
  destruct (unpack2 (tag_indices (split text_b))) as [[t3 t4]|e2]; simpl;
    [|split; [discriminate|intros [_ ?]; discriminate]].
  destruct (pop_longer_side (split text_a) t1 t2) as [w1|e1]; simpl;
    [|split; [discriminate|intros [? _]; discriminate]].
  destruct (pop_longer_side (split text_b) t3 t4) as [w2|e2]; simpl;
    [|split; [discriminate|intros [_ ?]; discriminate]].
  split; [intros [= <- <-]; auto|intros [[= <-] [= <-]]; reflexivity].
Qed.

(** An iteration that does not raise takes exactly one word away. *)
Lemma Uni_body_one_word (text text' : string) :
  Uni_body text = Ok text' ->
  length (split text) = S (length (split text')).
Proof.
  intros H. apply Uni_body_inv in H as (t1 & t2 & w' & Ht & Hp & ->).
  destruct (pop_longer_side_ok _ _ _ Ht) as (w'' & Hp' & Hl & Hne & HF).
  rewrite Hp in Hp'. injection Hp' as <-.
  rewrite split_join; auto. apply HF, split_no_space.
Qed.

(** Without exactly two tag words the unpacking raises. *)
Lemma Uni_body_raises (text : string) :
  tag_count text <> 2 -> Uni_body text = Raise ValueError.
Proof.
  intros H. unfold Uni_body, tag_indices.
  rewrite unpack2_Raise; [reflexivity|].
  now rewrite tag_indices_length.
Qed.

Lemma Uni_body_safe (text : string) :
  tag_count text = 2 -> 2 <= outside (split text) ->
  exists text',
    Uni_body text = Ok text' /\
    tag_count text' = 2 /\
    outside (split text') = outside (split text) - 1 /\
    tag_words (split text') = tag_words (split text).
Proof.
  intros H Hout. apply tag_count_two in H as (t1 & t2 & Ht).
  destruct (pop_longer_side_safe _ _ _ Ht Hout)
    as (w' & t1' & t2' & Hp & Ht' & Ho & Hw).
  destruct (pop_longer_side_ok _ _ _ Ht) as (w'' & Hp' & _ & Hne & HF).
  rewrite Hp in Hp'. injection Hp' as <-.
  assert (Hs : split (join w') = w').
  { apply split_join; auto. apply HF, split_no_space. }
  exists (join w'). split; [|split; [|split]].
  - apply Uni_body_inv. now exists t1, t2, w'.
  - apply tag_count_two. rewrite Hs. now exists t1', t2'.
  - now rewrite Hs.
  - now rewrite Hs.
Qed.

(** *** The iterates of the body *)

Lemma Uni_iter_S (n : nat) (text text' : string) :
  Uni_iter (S n) text = Ok text' <->
  exists text1, Uni_body text = Ok text1 /\ Uni_iter n text1 = Ok text'.
Proof.
  simpl. destruct (Uni_body text) as [text1|e]; simpl.
  - split; [intros H; now exists text1|now intros (? & [= <-] & ?)].
  - split; [discriminate|now intros (? & ? & _)].
Qed.

Lemma Sep_iter_Uni (n : nat) (text_a text_b text_a' text_b' : string) :
  Sep_iter n text_a text_b = Ok (text_a', text_b') <->
  Uni_iter n text_a = Ok text_a' /\ Uni_iter n text_b = Ok text_b'.
Proof.
  revert text_a text_b. induction n as [|n IH]; intros text_a text_b.
  - simpl. split; [intros [= <- <-]; auto|intros [[= <-] [= <-]]; auto].
  - rewrite !Uni_iter_S. simpl.
    destruct (Sep_body text_a text_b) as [[a1 b1]|e] eqn:E; simpl.
    + apply Sep_body_inv in E as [Ea Eb]. rewrite IH. split.
      * intros [Ha Hb]. split; [now exists a1|now exists b1].
      * intros [(a2 & Ha2 & Ha) (b2 & Hb2 & Hb)].
        rewrite Ea in Ha2. rewrite Eb in Hb2.
        injection Ha2 as <-. injection Hb2 as <-. auto.
    + split; [discriminate|].
      intros [(a2 & Ha2 & _) (b2 & Hb2 & _)].
      assert (Sep_body text_a text_b = Ok (a2, b2)) as E'
        by (apply Sep_body_inv; auto).
      congruence.
Qed.

(** As long as the number of iterations stays below the number of words
    outside the marked span, every iteration succeeds and keeps the tags. *)
Lemma Uni_iter_safe (n : nat) (text : string) :
  tag_count text = 2 -> n <= outside (split text) - 1 ->
  exists text',
    Uni_iter n text = Ok text' /\
    tag_count text' = 2 /\
    tag_words (split text') = tag_words (split text) /\
    outside (split text') = outside (split text) - n.
Proof.
  revert text. induction n as [|n IH]; intros text H Hn.
  - exists text. simpl. repeat split; auto. lia.
  - destruct (Uni_body_safe text H ltac:(lia)) as (t1 & Hb & Hc & Ho & Hw).
    destruct (IH t1 Hc ltac:(lia)) as (t' & Hi & Hc' & Hw' & Ho').
    exists t'. split; [|split; [|split]]; auto.
    + apply Uni_iter_S. now exists t1.
    + congruence.
    + lia.
Qed.

(** *** The loops *)

Lemma Uni_while_mono (fuel fuel' : nat) (text : string) (r : result string) :
  Uni_while fuel text = Some r -> fuel <= fuel' ->
  Uni_while fuel' text = Some r.
Proof.
  revert fuel' text. induction fuel as [|fuel IH]; intros fuel' text;
    [discriminate|].
  intros H Hle. destruct fuel' as [|fuel']; [lia|]. simpl in *.
  destruct (Uni_too_long text); [|assumption].
  destruct (Uni_body text); [|assumption].
  apply IH; [assumption|lia].
Qed.

Lemma Sep_while_mono (fuel fuel' : nat) (text_a text_b : string)
    (r : result (string * string)) :
  Sep_while fuel text_a text_b = Some r -> fuel <= fuel' ->
  Sep_while fuel' text_a text_b = Some r.
Proof.
  revert fuel' text_a text_b.
  induction fuel as [|fuel IH]; intros fuel' text_a text_b; [discriminate|].
  intros H Hle. destruct fuel' as [|fuel']; [lia|]. simpl in *.
  destruct (Sep_too_long text_a text_b); [|assumption].
  destruct (Sep_body text_a text_b) as [[a1 b1]|e]; [|assumption].
  apply IH; [assumption|lia].
Qed.

(** As many iterations as the text has words are always enough. *)
Lemma Uni_while_enough (fuel : nat) (text : string) :
  length (split text) <= fuel -> exists r, Uni_while fuel text = Some r.
Proof.
  revert text. induction fuel as [|fuel IH]; intros text Hle.
  - pose proof (split_length_pos text). lia.
  - simpl. destruct (Uni_too_long text); [|eauto].
    destruct (Uni_body text) as [text'|e] eqn:E; [|eauto].
    apply IH. apply Uni_body_one_word in E. lia.
Qed.

Lemma Sep_while_enough (fuel : nat) (text_a text_b : string) :
  length (split text_a) <= fuel ->
  exists r, Sep_while fuel text_a text_b = Some r.
Proof.
  revert text_a text_b. induction fuel as [|fuel IH]; intros text_a text_b Hle.
  - pose proof (split_length_pos text_a). lia.
  - simpl. destruct (Sep_too_long text_a text_b); [|eauto].
    destruct (Sep_body text_a text_b) as [[a1 b1]|e] eqn:E; [|eauto].
    apply IH. apply Sep_body_inv in E as [E _].
    apply Uni_body_one_word in E. lia.
Qed.

(** If the texts fit after [n] iterations, the loop returns the first
    iterate that fits. *)
Lemma Uni_while_first_fit (n : nat) (text text_n : string) :
  Uni_iter n text = Ok text_n -> Uni_too_long text_n = false ->
  exists m text_m,
    m <= n /\ Uni_iter m text = Ok text_m /\ Uni_too_long text_m = false /\
    forall fuel, m < fuel -> Uni_while fuel text = Some (Ok text_m).
Proof.
  revert text. induction n as [|n IH]; intros text Hn Hfit.
  - injection Hn as <-. exists 0, text. repeat split; auto.
    intros [|fuel] Hf; [lia|]. simpl. now rewrite Hfit.
  - destruct (Uni_too_long text) eqn:Elong.
    + apply Uni_iter_S in Hn as (t1 & Hb & Hi).
      destruct (IH t1 Hi Hfit) as (m & tm & Hm & Him & Hfm & Hw).
      exists (S m), tm. repeat split; auto; [lia| |].
      * apply Uni_iter_S. now exists t1.
      * intros [|fuel] Hf; [lia|]. simpl. rewrite Elong, Hb.
        apply Hw. lia.
    + exists 0, text. repeat split; auto; [lia|].
      intros [|fuel] Hf; [lia|]. simpl. now rewrite Elong.
Qed.

Lemma Sep_while_first_fit (n : nat) (text_a text_b a_n b_n : string) :
  Sep_iter n text_a text_b = Ok (a_n, b_n) -> Sep_too_long a_n b_n = false ->
  exists m a_m b_m,
    m <= n /\ Sep_iter m text_a text_b = Ok (a_m, b_m) /\
    Sep_too_long a_m b_m = false /\
    forall fuel, m < fuel ->
      Sep_while fuel text_a text_b = Some (Ok (a_m, b_m)).
Proof.
  revert text_a text_b. induction n as [|n IH]; intros text_a text_b Hn Hfit.
  - injection Hn as <- <-. exists 0, text_a, text_b. repeat split; auto.
    intros [|fuel] Hf; [lia|]. simpl. now rewrite Hfit.
  - destruct (Sep_too_long text_a text_b) eqn:Elong.
    + simpl in Hn.
      destruct (Sep_body text_a text_b) as [[a1 b1]|e] eqn:Hb;
        simpl in Hn; [|discriminate].
      destruct (IH a1 b1 Hn Hfit) as (m & am & bm & Hm & Him & Hfm & Hw).
      exists (S m), am, bm. repeat split; auto; [lia| |].
      * simpl. now rewrite Hb.
      * intros [|fuel] Hf; [lia|]. simpl. rewrite Elong, Hb.
        apply Hw. lia.
    + exists 0, text_a, text_b. repeat split; auto; [lia|].
      intros [|fuel] Hf; [lia|]. simpl. now rewrite Elong.
Qed.

(** The loop of [_process_seq_len] returns the first iterate that fits. *)
Lemma Uni_process_first_fit (n : nat) (text text_n : string) :
  Uni_iter n (re_sub text) = Ok text_n -> Uni_too_long text_n = false ->
  exists m text_m,
    m <= n /\ Uni_iter m (re_sub text) = Ok text_m /\
    Uni_too_long text_m = false /\
    Uni_process_seq_len text = Some (Ok text_m).
Proof.
  intros Hn Hfit.
  destruct (Uni_while_first_fit n _ _ Hn Hfit) as (m & tm & Hm & Hi & Hf & Hw).
  exists m, tm. repeat split; auto. unfold Uni_process_seq_len.
  destruct (Uni_while_enough (length (split (re_sub text))) (re_sub text))
    as [r Hr]; [lia|].
  rewrite Hr. rewrite <- (Hw (S m + length (split (re_sub text)))) by lia.
  symmetry. eapply Uni_while_mono; [exact Hr|lia].
Qed.

Lemma Sep_process_first_fit (n : nat) (text_a text_b a_n b_n : string) :
  Sep_iter n (re_sub text_a) (re_sub text_b) = Ok (a_n, b_n) ->
  Sep_too_long a_n b_n = false ->
  exists m a_m b_m,
    m <= n /\ Sep_iter m (re_sub text_a) (re_sub text_b) = Ok (a_m, b_m) /\
    Sep_too_long a_m b_m = false /\
    Sep_process_seq_len text_a text_b = Some (Ok (a_m, b_m)).
Proof.
  intros Hn Hfit.
  destruct (Sep_while_first_fit n _ _ _ _ Hn Hfit)
    as (m & am & bm & Hm & Hi & Hf & Hw).
  exists m, am, bm. repeat split; auto. unfold Sep_process_seq_len.
  destruct (Sep_while_enough (length (split (re_sub text_a)))
              (re_sub text_a) (re_sub text_b)) as [r Hr]; [lia|].
  rewrite Hr. rewrite <- (Hw (S m + length (split (re_sub text_a)))) by lia.
  symmetry. eapply Sep_while_mono; [exact Hr|lia].
Qed.

(** Within the first [max 1 (outside ws)] iterations the loop does not raise. *)
Lemma Uni_while_no_raise (fuel : nat) (text : string) (e : exn) :
  tag_count text = 2 -> fuel - 1 <= outside (split text) - 1 ->
  Uni_while fuel text <> Some (Raise e).
Proof.
  revert text. induction fuel as [|fuel IH]; intros text Hc Hf; [discriminate|].
  simpl. destruct (Uni_too_long text); [|discriminate].
  destruct fuel as [|fuel].
  - destruct (proj1 (tag_count_two text) Hc) as (t1 & t2 & Ht).
    destruct (pop_longer_side_ok _ _ _ Ht) as (w' & Hp & _).
    assert (Uni_body text = Ok (join w')) as ->
      by (apply Uni_body_inv; now exists t1, t2, w').
    discriminate.
  - destruct (Uni_body_safe text Hc ltac:(lia)) as (t' & -> & Hc' & Ho & _).
    apply IH; [assumption|lia].
Qed.

Lemma Sep_while_no_raise (fuel : nat) (text_a text_b : string) (e : exn) :
  tag_count text_a = 2 -> tag_count text_b = 2 ->
  fuel - 1 <= outside (split text_a) - 1 ->
  fuel - 1 <= outside (split text_b) - 1 ->
  Sep_while fuel text_a text_b <> Some (Raise e).
Proof.
  revert text_a text_b.
  induction fuel as [|fuel IH]; intros text_a text_b Ha Hb Hfa Hfb;
    [discriminate|].
  simpl. destruct (Sep_too_long text_a text_b); [|discriminate].
  destruct fuel as [|fuel].
  - destruct (proj1 (tag_count_two text_a) Ha) as (t1 & t2 & Ht).
    destruct (proj1 (tag_count_two text_b) Hb) as (t3 & t4 & Ht').
    destruct (pop_longer_side_ok _ _ _ Ht) as (w1 & Hp & _).
    destruct (pop_longer_side_ok _ _ _ Ht') as (w2 & Hp' & _).
    assert (Sep_body text_a text_b = Ok (join w1, join w2)) as ->.
    { apply Sep_body_inv. split; apply Uni_body_inv;
        [now exists t1, t2, w1|now exists t3, t4, w2]. }
    discriminate.
  - destruct (Uni_body_safe text_a Ha ltac:(lia)) as (a' & Ea & Ha' & Hoa & _).
    destruct (Uni_body_safe text_b Hb ltac:(lia)) as (b' & Eb & Hb' & Hob & _).
    assert (Sep_body text_a text_b = Ok (a', b')) as ->
      by (apply Sep_body_inv; auto).
    apply IH; auto; lia.
Qed.

(** What a loop returns has passed the loop test. *)
Lemma Uni_while_returns_fit (fuel : nat) (text text' : string) :
  Uni_while fuel text = Some (Ok text') -> Uni_too_long text' = false.
Proof.
  revert text. induction fuel as [|fuel IH]; intros text; [discriminate|].
  simpl. destruct (Uni_too_long text) eqn:E.
  - destruct (Uni_body text) as [t1|e]; [apply IH|discriminate].
  - intros [= <-]. exact E.
Qed.

Lemma Sep_while_returns_fit (fuel : nat) (text_a text_b a' b' : string) :
  Sep_while fuel text_a text_b = Some (Ok (a', b')) ->
  Sep_too_long a' b' = false.
Proof.
  revert text_a text_b.
  induction fuel as [|fuel IH]; intros text_a text_b; [discriminate|].
  simpl. destruct (Sep_too_long text_a text_b) eqn:E.
  - destruct (Sep_body text_a text_b) as [[a1 b1]|e];
      [apply IH|discriminate].
  - intros [= <- <-]. exact E.
Qed.

Lemma too_long_false_le (n : nat) :
  (Z.of_nat n >? max_seq_len)%Z = false -> (Z.of_nat n <= max_seq_len)%Z.
Proof.
  intros H. destruct (Z.gtb_spec (Z.of_nat n) max_seq_len); [discriminate|lia].
Qed.

End Processor.

Example sep_run_raises :
  Sep_process_seq_len word_tokenize tags4 5
    "a b [s1] x [e1] c" "[s2] y [e2] d e f"
  = Some (Raise ValueError).
Proof. vm_compute. reflexivity. Qed.

Example sep_run_returns :
  Sep_process_seq_len word_tokenize tags4 8
    "a b [s1] x [e1] c" "[s2] y [e2] d e f"
  = Some (Ok ("b [s1] x [e1]", "[s2] y [e2] d")).
Proof. vm_compute. reflexivity. Qed.

(** *** The claims on [_process_seq_len] *)

(** C8. The loops of both processors end for every input and every
    tokenizer: run with any iteration bound that is at least the number of
    words of [text_a], the loop ends with one and the same outcome, and that
    outcome is either an exception or a return of texts whose tokenized
    length is at most [max_seq_len]; and an iteration that does not raise
    takes exactly one word from each text it truncates. Nothing is asked of
    the tokenizer. *)
Theorem process_seq_len_terminates {token : Type}
    (tokenize : string -> list token) (SPEC_TAGS : list string)
    (max_seq_len : Z) :
  (forall text_a text_b, exists r,
      Sep_process_seq_len tokenize SPEC_TAGS max_seq_len text_a text_b = Some r
      /\ (forall fuel, length (split (re_sub text_a)) <= fuel ->
            Sep_while tokenize SPEC_TAGS max_seq_len fuel
              (re_sub text_a) (re_sub text_b) = Some r)
      /\ ((exists e, r = Raise e) \/
          (exists text_a' text_b',
              r = Ok (text_a', text_b') /\
              Sep_too_long tokenize max_seq_len text_a' text_b' = false /\
              (Z.of_nat (length (tokenize text_a' ++ tokenize text_b'))
               <= max_seq_len)%Z))) /\
  (forall text_a, exists r,
      Uni_process_seq_len tokenize SPEC_TAGS max_seq_len text_a = Some r
      /\ (forall fuel, length (split (re_sub text_a)) <= fuel ->
            Uni_while tokenize SPEC_TAGS max_seq_len fuel (re_sub text_a)
            = Some r)
      /\ ((exists e, r = Raise e) \/
          (exists text_a',
              r = Ok text_a' /\
              Uni_too_long tokenize max_seq_len text_a' = false /\
              (Z.of_nat (length (tokenize text_a')) <= max_seq_len)%Z))) /\
  (forall text_a text_b text_a' text_b',
      Sep_body SPEC_TAGS text_a text_b = Ok (text_a', text_b') ->
      length (split text_a) = S (length (split text_a')) /\
      length (split text_b) = S (length (split text_b'))) /\
  (forall text_a text_a',
      Uni_body SPEC_TAGS text_a = Ok text_a' ->
      length (split text_a) = S (length (split text_a'))).
Proof.
  split; [|split; [|split]].
  - intros text_a text_b. unfold Sep_process_seq_len.
    destruct (Sep_while_enough tokenize SPEC_TAGS max_seq_len
                (length (split (re_sub text_a))) (re_sub text_a)
                (re_sub text_b)) as [r Hr]; [lia|].
    exists r. split; [exact Hr|]. split.
    + intros fuel Hfuel. eapply Sep_while_mono; eauto.
    + destruct r as [[a' b']|e]; [right|left; now exists e].
      exists a', b'.
      pose proof (Sep_while_returns_fit _ _ _ _ _ _ _ _ Hr) as Hfit.
      split; [reflexivity|]. split; [exact Hfit|].
      now apply too_long_false_le.
  - intros text_a. unfold Uni_process_seq_len.
    destruct (Uni_while_enough tokenize SPEC_TAGS max_seq_len
                (length (split (re_sub text_a))) (re_sub text_a))
      as [r Hr]; [lia|].
    exists r. split; [exact Hr|]. split.
    + intros fuel Hfuel. eapply Uni_while_mono; eauto.
    + destruct r as [a'|e]; [right|left; now exists e].
      exists a'.
      pose proof (Uni_while_returns_fit _ _ _ _ _ _ Hr) as Hfit.
      split; [reflexivity|]. split; [exact Hfit|].
      now apply too_long_false_le.
  - intros text_a text_b text_a' text_b' H.
    apply Sep_body_inv in H as [Ha Hb].
    split; [now apply Uni_body_one_word in Ha|now apply Uni_body_one_word in Hb].
  - intros text_a text_a' H. now apply Uni_body_one_word in H.
Qed.

(** C2, as the code has it. With exactly two tag words in every text that
    enters the loop, the unpacking of the tag indices succeeds in iteration
    [i + 1] whenever [i] is 0 or smaller than the number of words outside
    the marked span of each text; and the loop of either processor raises
    nothing within these iterations. *)
Theorem unpacking_succeeds_while_words_outside {token : Type}
    (tokenize : string -> list token) (SPEC_TAGS : list string)
    (max_seq_len : Z) :
  (forall text_a text_b i,
      tag_count SPEC_TAGS text_a = 2 -> tag_count SPEC_TAGS text_b = 2 ->
      i <= outside SPEC_TAGS (split text_a) - 1 ->
      i <= outside SPEC_TAGS (split text_b) - 1 ->
      (exists a_i b_i t1 t2 t3 t4,
          Sep_iter SPEC_TAGS i text_a text_b = Ok (a_i, b_i) /\
          unpack2 (tag_indices SPEC_TAGS (split a_i)) = Ok (t1, t2) /\
          unpack2 (tag_indices SPEC_TAGS (split b_i)) = Ok (t3, t4)) /\
      forall e, Sep_while tokenize SPEC_TAGS max_seq_len (S i) text_a text_b
                <> Some (Raise e)) /\
  (forall text_a i,
      tag_count SPEC_TAGS text_a = 2 ->
      i <= outside SPEC_TAGS (split text_a) - 1 ->
      (exists a_i t1 t2,
          Uni_iter SPEC_TAGS i text_a = Ok a_i /\
          unpack2 (tag_indices SPEC_TAGS (split a_i)) = Ok (t1, t2)) /\
      forall e, Uni_while tokenize SPEC_TAGS max_seq_len (S i) text_a
                <> Some (Raise e)).
Proof.
  split.
  - intros text_a text_b i Ha Hb Hia Hib. split.
    + destruct (Uni_iter_safe SPEC_TAGS i text_a Ha Hia) as (a_i & Ea & Ca & _).
      destruct (Uni_iter_safe SPEC_TAGS i text_b Hb Hib) as (b_i & Eb & Cb & _).
      apply tag_count_two in Ca as (t1 & t2 & Ta).
      apply tag_count_two in Cb as (t3 & t4 & Tb).
      exists a_i, b_i, t1, t2, t3, t4. rewrite Ta, Tb. repeat split.
      apply Sep_iter_Uni. auto.
    + intros e. apply Sep_while_no_raise; simpl; auto; lia.
  - intros text_a i Ha Hia. split.
    + destruct (Uni_iter_safe SPEC_TAGS i text_a Ha Hia) as (a_i & Ea & Ca & _).
      apply tag_count_two in Ca as (t1 & t2 & Ta).
      exists a_i, t1, t2. rewrite Ta. auto.
    + intros e. apply Uni_while_no_raise; simpl; auto; lia.
Qed.

(** C2 at a concrete input: [i = 1] for texts with two words outside each
    marked span. *)
Lemma unpacking_succeeds_witness :
  exists a_i b_i t1 t2 t3 t4,
    Sep_iter tags4 1 "a [s1] x [e1] b" "[s2] y [e2] c d" = Ok (a_i, b_i) /\
    unpack2 (tag_indices tags4 (split a_i)) = Ok (t1, t2) /\
    unpack2 (tag_indices tags4 (split b_i)) = Ok (t3, t4).
Proof.
  apply (proj1 (unpacking_succeeds_while_words_outside word_tokenize tags4 3)
           "a [s1] x [e1] b" "[s2] y [e2] c d" 1);
    vm_compute; first [reflexivity | lia].
Defined.

(** C2 as stated fails. Both texts enter the loop of the Sep processor with
    exactly two tag words; the first iteration pops ["[e1]"], the last word
    of [text_a], and the unpacking of the second iteration raises. *)
Lemma unpacking_raises_after_tag_popped :
  tag_count tags4 "[s1] fever [e1]" = 2 /\
  tag_count tags4 "[s2] aspirin [e2] daily use today" = 2 /\
  Sep_iter tags4 1 "[s1] fever [e1]" "[s2] aspirin [e2] daily use today"
  = Ok ("[s1] fever", "[s2] aspirin [e2] daily use") /\
  Sep_too_long word_tokenize 4 "[s1] fever" "[s2] aspirin [e2] daily use"
  = true /\
  unpack2 (tag_indices tags4 (split "[s1] fever")) = Raise ValueError /\
  Sep_process_seq_len word_tokenize tags4 4
    "[s1] fever [e1]" "[s2] aspirin [e2] daily use today"
  = Some (Raise ValueError).
Proof. repeat split; vm_compute; reflexivity. Qed.

(** C1, as the code has it. Let each text enter the loop with exactly two
    tag words, and let the texts fit [max_seq_len] after [n] iterations,
    where [n] is smaller than the number of words outside the marked span
    of each text. Then [_process_seq_len] returns, the returned texts have a
    combined tokenized length of at most [max_seq_len], and each of them
    still has its two tag words, the same ones in the same order. *)
Theorem truncation_keeps_tags_while_words_outside {token : Type}
    (tokenize : string -> list token) (SPEC_TAGS : list string)
    (max_seq_len : Z) :
  (forall text_a text_b n,
      tag_count SPEC_TAGS (re_sub text_a) = 2 ->
      tag_count SPEC_TAGS (re_sub text_b) = 2 ->
      n < outside SPEC_TAGS (split (re_sub text_a)) ->
      n < outside SPEC_TAGS (split (re_sub text_b)) ->
      (forall a_n b_n,
          Sep_iter SPEC_TAGS n (re_sub text_a) (re_sub text_b) = Ok (a_n, b_n) ->
          Sep_too_long tokenize max_seq_len a_n b_n = false) ->
      exists text_a' text_b',
        Sep_process_seq_len tokenize SPEC_TAGS max_seq_len text_a text_b
        = Some (Ok (text_a', text_b')) /\
        (Z.of_nat (length (tokenize text_a' ++ tokenize text_b'))
         <= max_seq_len)%Z /\
        tag_count SPEC_TAGS text_a' = 2 /\
        tag_count SPEC_TAGS text_b' = 2 /\
        tag_words SPEC_TAGS (split text_a')
        = tag_words SPEC_TAGS (split (re_sub text_a)) /\
        tag_words SPEC_TAGS (split text_b')
        = tag_words SPEC_TAGS (split (re_sub text_b))) /\
  (forall text_a n,
      tag_count SPEC_TAGS (re_sub text_a) = 2 ->
      n < outside SPEC_TAGS (split (re_sub text_a)) ->
      (forall a_n,
          Uni_iter SPEC_TAGS n (re_sub text_a) = Ok a_n ->
          Uni_too_long tokenize max_seq_len a_n = false) ->
      exists text_a',
        Uni_process_seq_len tokenize SPEC_TAGS max_seq_len text_a
        = Some (Ok text_a') /\
        (Z.of_nat (length (tokenize text_a')) <= max_seq_len)%Z /\
        tag_count SPEC_TAGS text_a' = 2 /\
        tag_words SPEC_TAGS (split text_a')
        = tag_words SPEC_TAGS (split (re_sub text_a))).
Proof.
  split.
  - intros text_a text_b n Ha Hb Hna Hnb Hfit.
    destruct (Uni_iter_safe SPEC_TAGS n _ Ha ltac:(lia)) as (a_n & Ea & _).
    destruct (Uni_iter_safe SPEC_TAGS n _ Hb ltac:(lia)) as (b_n & Eb & _).
    assert (En : Sep_iter SPEC_TAGS n (re_sub text_a) (re_sub text_b)
                 = Ok (a_n, b_n)) by (apply Sep_iter_Uni; auto).
    destruct (Sep_process_first_fit tokenize SPEC_TAGS max_seq_len n
                text_a text_b a_n b_n En (Hfit _ _ En))
      as (m & a_m & b_m & Hm & Em & Hfm & Hret).
    apply Sep_iter_Uni in Em as [Ema Emb].
    destruct (Uni_iter_safe SPEC_TAGS m _ Ha ltac:(lia))
      as (a' & Ea' & Ca & Wa & _).
    destruct (Uni_iter_safe SPEC_TAGS m _ Hb ltac:(lia))
      as (b' & Eb' & Cb & Wb & _).
    rewrite Ema in Ea'. rewrite Emb in Eb'.
    injection Ea' as <-. injection Eb' as <-.
    exists a_m, b_m. repeat split; auto.
    now apply too_long_false_le.
  - intros text_a n Ha Hna Hfit.
    destruct (Uni_iter_safe SPEC_TAGS n _ Ha ltac:(lia)) as (a_n & Ea & _).
    destruct (Uni_process_first_fit tokenize SPEC_TAGS max_seq_len n
                text_a a_n Ea (Hfit _ Ea))
      as (m & a_m & Hm & Em & Hfm & Hret).
    destruct (Uni_iter_safe SPEC_TAGS m _ Ha ltac:(lia))
      as (a' & Ea' & Ca & Wa & _).
    rewrite Em in Ea'. injection Ea' as <-.
    exists a_m. repeat split; auto.
    now apply too_long_false_le.
Qed.

(** C1 at a concrete pair: two iterations, three and four words outside. *)
Lemma truncation_keeps_tags_witness :
  exists text_a' text_b',
    Sep_process_seq_len word_tokenize tags4 8
      "a b [s1] x [e1] c" "[s2] y [e2] d e f"
    = Some (Ok (text_a', text_b')) /\
    (Z.of_nat (length (word_tokenize text_a' ++ word_tokenize text_b')) <= 8)%Z
    /\ tag_count tags4 text_a' = 2 /\ tag_count tags4 text_b' = 2 /\
    tag_words tags4 (split text_a')
    = tag_words tags4 (split (re_sub "a b [s1] x [e1] c")) /\
    tag_words tags4 (split text_b')
    = tag_words tags4 (split (re_sub "[s2] y [e2] d e f")).
Proof.
  apply (proj1 (truncation_keeps_tags_while_words_outside word_tokenize tags4 8)
           "a b [s1] x [e1] c" "[s2] y [e2] d e f" 2).
  - vm_compute. reflexivity.
  - vm_compute. reflexivity.
  - vm_compute. lia.
  - vm_compute. lia.
  - intros a_n b_n H. vm_compute in H. injection H as <- <-.
    vm_compute. reflexivity.
Defined.

(** C1 as stated fails. Both texts have exactly two tag words and together
    exceed [max_seq_len = 7]; the truncation returns texts that fit, and
    [text_a] has lost its second tag word. *)
Lemma truncation_drops_tag_without_words_outside :
  tag_count tags4 (re_sub "[s1] fever [e1]") = 2 /\
  tag_count tags4 (re_sub "[s2] aspirin [e2] daily use today") = 2 /\
  Sep_too_long word_tokenize 7
    (re_sub "[s1] fever [e1]") (re_sub "[s2] aspirin [e2] daily use today")
  = true /\
  Sep_process_seq_len word_tokenize tags4 7
    "[s1] fever [e1]" "[s2] aspirin [e2] daily use today"
  = Some (Ok ("[s1] fever", "[s2] aspirin [e2] daily use")) /\
  tag_words tags4 (split "[s1] fever") = ["[s1]"] /\
  ~ (exists text_a' text_b',
        Sep_process_seq_len word_tokenize tags4 7
          "[s1] fever [e1]" "[s2] aspirin [e2] daily use today"
        = Some (Ok (text_a', text_b')) /\
        tag_count tags4 text_a' = 2 /\ tag_count tags4 text_b' = 2).
Proof.
  assert (E : Sep_process_seq_len word_tokenize tags4 7
                "[s1] fever [e1]" "[s2] aspirin [e2] daily use today"
              = Some (Ok ("[s1] fever", "[s2] aspirin [e2] daily use")))
    by (vm_compute; reflexivity).
  repeat split; try (vm_compute; reflexivity).
  intros (a' & b' & H & Ca & _). rewrite E in H. injection H as <- <-.
  vm_compute in Ca. discriminate.
Qed.

(** C6, as the code has it. When the texts, once the two de-identification
    markers are taken out of them, fit [max_seq_len], [_process_seq_len]
    returns exactly these texts and drops no word; a text that holds no
    marker comes back unchanged. *)
Theorem short_texts_only_lose_markers {token : Type}
    (tokenize : string -> list token) (SPEC_TAGS : list string)
    (max_seq_len : Z) :
  (forall text_a text_b,
      Sep_too_long tokenize max_seq_len (re_sub text_a) (re_sub text_b) = false ->
      Sep_process_seq_len tokenize SPEC_TAGS max_seq_len text_a text_b
      = Some (Ok (re_sub text_a, re_sub text_b)) /\
      (contains_marker text_a = false -> re_sub text_a = text_a) /\
      (contains_marker text_b = false -> re_sub text_b = text_b)) /\
  (forall text_a,
      Uni_too_long tokenize max_seq_len (re_sub text_a) = false ->
      Uni_process_seq_len tokenize SPEC_TAGS max_seq_len text_a
      = Some (Ok (re_sub text_a)) /\
      (contains_marker text_a = false -> re_sub text_a = text_a)).
Proof.
  split.
  - intros text_a text_b Hfit. unfold Sep_process_seq_len.
    pose proof (split_length_pos (re_sub text_a)) as Hpos.
    destruct (length (split (re_sub text_a))) as [|fuel]; [lia|].
    simpl. rewrite Hfit.
    repeat split; auto using re_sub_no_marker.
  - intros text_a Hfit. unfold Uni_process_seq_len.
    pose proof (split_length_pos (re_sub text_a)) as Hpos.
    destruct (length (split (re_sub text_a))) as [|fuel]; [lia|].
    simpl. rewrite Hfit.
    repeat split; auto using re_sub_no_marker.
Qed.

(** C6 at a concrete pair without markers. *)
Lemma short_texts_witness :
  Sep_process_seq_len word_tokenize tags4 128 "[s1] x [e1]" "[s2] y [e2]"
  = Some (Ok (re_sub "[s1] x [e1]", re_sub "[s2] y [e2]")) /\
  (contains_marker "[s1] x [e1]" = false ->
   re_sub "[s1] x [e1]" = "[s1] x [e1]") /\
  (contains_marker "[s2] y [e2]" = false ->
   re_sub "[s2] y [e2]" = "[s2] y [e2]").
Proof.
  apply (proj1 (short_texts_only_lose_markers word_tokenize tags4 128)
           "[s1] x [e1]" "[s2] y [e2]").
  vm_compute. reflexivity.
Defined.

(** C6 as stated fails: the text fits [max_seq_len] as it is given, and it
    is not returned unchanged, because the marker is taken out first. *)
Lemma short_text_with_marker_is_changed :
  Sep_too_long word_tokenize 128 "[s1] x [e1] [ * * 1999 * * ]" "[s2] y [e2]"
  = false /\
  Sep_process_seq_len word_tokenize tags4 128
    "[s1] x [e1] [ * * 1999 * * ]" "[s2] y [e2]"
  = Some (Ok ("[s1] x [e1]  1999 ", "[s2] y [e2]")) /\
  Sep_process_seq_len word_tokenize tags4 128
    "[s1] x [e1] [ * * 1999 * * ]" "[s2] y [e2]"
  <> Some (Ok ("[s1] x [e1] [ * * 1999 * * ]", "[s2] y [e2]")).
Proof.
  assert (E : Sep_process_seq_len word_tokenize tags4 128
                "[s1] x [e1] [ * * 1999 * * ]" "[s2] y [e2]"
              = Some (Ok ("[s1] x [e1]  1999 ", "[s2] y [e2]")))
    by (vm_compute; reflexivity).
  split; [vm_compute; reflexivity|]. split; [exact E|].
  rewrite E. discriminate.
Qed.

End Truncation.

(** ** The learning-rate schedule: [get_linear_schedule_with_warmup] *)

Module Schedule.

Local Open Scope Q_scope.

(** [lr_lambda], the multiplier handed to [LambdaLR]; [float(n)] is the
    rational [n], Python's [max(x, y)] is [Qmax x y] ([x] unless [x < y]). *)
Definition lr_lambda (num_warmup_steps num_training_steps : Z)
    (current_step : Z) : Q :=
  if (current_step <? num_warmup_steps)%Z then
    inject_Z current_step / inject_Z (Z.max 1 num_warmup_steps)
  else
    Qmax 0
      (inject_Z (num_training_steps - current_step)
       / inject_Z (Z.max 1 (num_training_steps - num_warmup_steps))).

Lemma ratio_le_compat (a b d : Z) :
  (0 < d)%Z -> (a <= b)%Z -> inject_Z a / inject_Z d <= inject_Z b / inject_Z d.
Proof.
  intros Hd Hab. unfold Qdiv. apply Qmult_le_compat_r.
  - now rewrite <- Zle_Qle.
  - apply Qinv_le_0_compat. change 0 with (inject_Z 0).
    rewrite <- Zle_Qle. lia.
Qed.

Lemma ratio_nonneg (a d : Z) :
  (0 <= a)%Z -> (0 < d)%Z -> 0 <= inject_Z a / inject_Z d.
Proof.
  intros Ha Hd. apply Qle_shift_div_l.
  - change 0 with (inject_Z 0). now rewrite <- Zlt_Qlt.
  - rewrite Qmult_0_l. change 0 with (inject_Z 0). now rewrite <- Zle_Qle.
Qed.

Lemma ratio_le_1 (a d : Z) :
  (a <= d)%Z -> (0 < d)%Z -> inject_Z a / inject_Z d <= 1.
Proof.
  intros Ha Hd. apply Qle_shift_div_r.
  - change 0 with (inject_Z 0). now rewrite <- Zlt_Qlt.
  - rewrite Qmult_1_l. now rewrite <- Zle_Qle.
Qed.

Lemma ratio_nonpos (a d : Z) :
  (a <= 0)%Z -> (0 < d)%Z -> inject_Z a / inject_Z d <= 0.
Proof.
  intros Ha Hd. apply Qle_shift_div_r.
  - change 0 with (inject_Z 0). now rewrite <- Zlt_Qlt.
  - rewrite Qmult_0_l. change 0 with (inject_Z 0). now rewrite <- Zle_Qle.
Qed.

(** C7. The multiplier is the warm-up ratio below [num_warmup_steps] and the
    clipped decay ratio from there on; when [num_warmup_steps] is at most
    [num_training_steps] it lies in [0, 1] at every step count (a step
    count is not negative), does not decrease during warm-up, does not
    increase afterwards, and is 0 from [num_training_steps] on. *)
Theorem lr_lambda_linear_warmup_then_decay
    (num_warmup_steps num_training_steps : Z) :
  (forall current_step, (current_step < num_warmup_steps)%Z ->
     lr_lambda num_warmup_steps num_training_steps current_step
     = inject_Z current_step / inject_Z (Z.max 1 num_warmup_steps)) /\
  (forall current_step, (num_warmup_steps <= current_step)%Z ->
     lr_lambda num_warmup_steps num_training_steps current_step
     = Qmax 0 (inject_Z (num_training_steps - current_step)
               / inject_Z (Z.max 1 (num_training_steps - num_warmup_steps)))) /\
  ((num_warmup_steps <= num_training_steps)%Z ->
   (forall current_step, (0 <= current_step)%Z ->
      0 <= lr_lambda num_warmup_steps num_training_steps current_step <= 1) /\
   (forall s1 s2, (s1 <= s2)%Z -> (s2 < num_warmup_steps)%Z ->
      lr_lambda num_warmup_steps num_training_steps s1
      <= lr_lambda num_warmup_steps num_training_steps s2) /\
   (forall s1 s2, (num_warmup_steps <= s1)%Z -> (s1 <= s2)%Z ->
      lr_lambda num_warmup_steps num_training_steps s2
      <= lr_lambda num_warmup_steps num_training_steps s1) /\
   (forall current_step, (num_training_steps <= current_step)%Z ->
      lr_lambda num_warmup_steps num_training_steps current_step == 0)).
Proof.
  split; [|split].
  - intros s Hs. unfold lr_lambda.
    destruct (Z.ltb_spec s num_warmup_steps); [reflexivity|lia].
  - intros s Hs. unfold lr_lambda.
    destruct (Z.ltb_spec s num_warmup_steps); [lia|reflexivity].
  - intros Hwt. split; [|split; [|split]].
    + intros s Hs. unfold lr_lambda.
      destruct (Z.ltb_spec s num_warmup_steps); split.
      * apply ratio_nonneg; lia.
      * apply ratio_le_1; lia.
      * apply Q.le_max_l.
      * apply Q.max_lub; [discriminate|].
        destruct (Z.le_gt_cases (num_training_steps - s) 0).
        -- apply Qle_trans with 0; [apply ratio_nonpos; lia|discriminate].
        -- apply ratio_le_1; lia.
    + intros s1 s2 H12 H2. unfold lr_lambda.
      destruct (Z.ltb_spec s1 num_warmup_steps); [|lia].
      destruct (Z.ltb_spec s2 num_warmup_steps); [|lia].
      apply ratio_le_compat; lia.
    + intros s1 s2 H1 H12. unfold lr_lambda.
      destruct (Z.ltb_spec s1 num_warmup_steps); [lia|].
      destruct (Z.ltb_spec s2 num_warmup_steps); [lia|].
      apply Q.max_le_compat_l. apply ratio_le_compat; lia.
    + intros s Hs. unfold lr_lambda.
      destruct (Z.ltb_spec s num_warmup_steps); [lia|].
      apply Q.max_l. apply ratio_nonpos; lia.
Qed.

(** C7 at [num_warmup_steps = 10], [num_training_steps = 100]. *)
Lemma lr_lambda_witness :
  (10 <= 100)%Z /\
  0 <= lr_lambda 10 100 5 <= 1 /\
  lr_lambda 10 100 5 = inject_Z 5 / inject_Z (Z.max 1 10) /\
  lr_lambda 10 100 120 == 0.
Proof.
  pose proof (lr_lambda_linear_warmup_then_decay 10 100) as (Hw & _ & H).
  destruct (H ltac:(lia)) as (Hb & _ & _ & Hz).
  split; [lia|]. split; [apply Hb; lia|].
  split; [apply Hw; lia|apply Hz; lia].
Defined.

End Schedule.

(** ** Mixed precision and the training loop: [TaskRunner] *)

Module Training.

(** The release numbers of a version string, as [version.parse] orders
    them: major, minor, micro. *)
Definition version : Type := (nat * nat * nat)%type.

(** [version.parse(v) >= version.parse(w)]. *)
Definition version_ge (v w : version) : bool :=
  let '(a, b, c) := v in
  let '(x, y, z) := w in
  (x <? a) || ((x =? a) && ((y <? b) || ((y =? b) && (z <=? c)))).

Inductive amp_module : Type :=
| torch_cuda_amp
| apex_amp.

(** The attributes of the runner that the training path reads:
    [self.args.fp16], [self._use_amp_for_fp16_from] (read only where
    [self.args.fp16] is set, after [__init__] has assigned it), [self.amp]
    and whether [self.amp_scaler] holds a [GradScaler]. *)
Record runner : Type := {
  fp16 : bool;
  use_amp_for_fp16_from : Z;
  amp : option amp_module;
  amp_scaler : bool
}.

(** [TaskRunner._load_amp_for_fp16]. In the [else] branch the [try]
    statement ends with [finally: self.args.fp16 = False], which runs
    whether or not the import of apex raised. *)
Definition _load_amp_for_fp16 (torch_version : version)
    (apex_importable : bool) (r : runner) : runner :=
  if version_ge torch_version (1, 6, 0) then
    {| fp16 := fp16 r; use_amp_for_fp16_from := 1;
       amp := Some torch_cuda_amp; amp_scaler := true |}
  else
    let r_try :=
      if apex_importable then
        {| fp16 := fp16 r; use_amp_for_fp16_from := 2;
           amp := Some apex_amp; amp_scaler := amp_scaler r |}
      else r in
    {| fp16 := false;
       use_amp_for_fp16_from := use_amp_for_fp16_from r_try;
       amp := amp r_try; amp_scaler := amp_scaler r_try |}.

(** The lines of [__init__] under [if self.args.do_train:] that set up amp. *)
Definition init_amp (torch_version : version) (apex_importable : bool)
    (r : runner) : runner :=
  if fp16 r then
    _load_amp_for_fp16 torch_version apex_importable
      {| fp16 := fp16 r; use_amp_for_fp16_from := 0;
         amp := amp r; amp_scaler := amp_scaler r |}
  else r.

(** What one [backward] adds to the [.grad] buffers: the gradient of the
    loss of batch [c_step] of epoch [c_epoch], divided by [c_divisor]. *)
Record contribution : Type := {
  c_epoch : nat;
  c_step : nat;
  c_divisor : Z
}.

Inductive backward_kind : Type :=
| plain_backward
| scaler_backward
| apex_scaled_backward.

Inductive event : Type :=
| ZeroGrad
| Forward (epoch step : nat) (autocast : bool)
| Backward (kind : backward_kind) (c : contribution)
| Unscale
| ClipGradNorm
| OptimizerStep (via_scaler : bool) (grad : list contribution)
| ScalerUpdate
| SchedulerStep
| SaveModel.

(** The gradient buffers of the model (the contributions summed into them
    since they were last zeroed) and the trace of what has run. *)
Record train_state : Type := {
  grad : list contribution;
  trace : list event
}.

Definition emit (e : event) (st : train_state) : train_state :=
  {| grad := grad st; trace := trace st ++ [e] |}.

(** [self.model.zero_grad()]. *)
Definition zero_grad (st : train_state) : train_state :=
  emit ZeroGrad {| grad := []; trace := trace st |}.

(** [loss.backward()] in one of its three forms: the gradient of the loss
    is added to the buffers. *)
Definition backward (kind : backward_kind) (c : contribution)
    (st : train_state) : train_state :=
  emit (Backward kind c) {| grad := grad st ++ [c]; trace := trace st |}.

(** [optimizer.step()], directly or through the scaler: it reads the
    buffers as they are. *)
Definition optimizer_step (via_scaler : bool) (st : train_state)
  : train_state :=
  emit (OptimizerStep via_scaler (grad st)) st.

(** Python's [a % b] on integers. *)
Definition py_mod (a b : Z) : result Z :=
  if (b =? 0)%Z then Raise ZeroDivisionError else Ok (a mod b)%Z.

(** A runner that was set up without [--fp16]. *)
Definition plain_runner : runner :=
  {| fp16 := false; use_amp_for_fp16_from := 0; amp := None;
     amp_scaler := false |}.

(** A runner whose arguments ask for fp16, before [__init__] sets up amp. *)
Definition fp16_runner : runner :=
  {| fp16 := true; use_amp_for_fp16_from := 0; amp := None;
     amp_scaler := false |}.

Section Train.

Variable r : runner.
(** [self.args.gradient_accumulation_steps] and [self.args.do_warmup]. *)
Variable gradient_accumulation_steps : Z.
Variable do_warmup : bool.
(** [len(self.train_data_loader)]. *)
Variable batch_total_step : nat.

(** The body of [for step, batch in enumerate(batch_iter)]. *)
Definition train_batch (epoch step : nat) (st : train_state)
  : result train_state :=
  let st := zero_grad st in
  let st := emit (Forward epoch step
                    (fp16 r && (use_amp_for_fp16_from r =? 1)%Z)) st in
  let loss := {| c_epoch := epoch; c_step := step;
                 c_divisor := gradient_accumulation_steps |} in
  let st :=
    if fp16 r then
      if (use_amp_for_fp16_from r =? 1)%Z then backward scaler_backward loss st
      else if (use_amp_for_fp16_from r =? 2)%Z
           then backward apex_scaled_backward loss st
           else st
    else backward plain_backward loss st in
  m ← py_mod (Z.of_nat step + 1) gradient_accumulation_steps;
  if (m =? 0)%Z || (step + 1 =? batch_total_step) then
    let st :=
      if fp16 r then
        if (use_amp_for_fp16_from r =? 1)%Z then
          emit ScalerUpdate
            (optimizer_step true (emit ClipGradNorm (emit Unscale st)))
        else if (use_amp_for_fp16_from r =? 2)%Z
             then optimizer_step false (emit ClipGradNorm st)
             else st
      else optimizer_step false (emit ClipGradNorm st) in
    Ok (if do_warmup then emit SchedulerStep st else st)
  else Ok st.

(** The batches [step, step + 1, ...] of one epoch, [n] of them. *)
Fixpoint train_batches (epoch step n : nat) (st : train_state)
  : result train_state :=
  match n with
  | O => Ok st
  | S n' => st' ← train_batch epoch step st;
            train_batches epoch (S step) n' st'
  end.

(** The epochs [epoch, epoch + 1, ...], [n] of them. *)
Fixpoint train_epochs (epoch n : nat) (st : train_state)
  : result train_state :=
  match n with
  | O => Ok st
  | S n' => st' ← train_batches epoch 0 batch_total_step st;
            train_epochs (S epoch) n' st'
  end.

(** [TaskRunner.train]. *)
Definition train (num_train_epochs : Z) : result train_state :=
  st ← train_epochs 0 (Z.to_nat num_train_epochs) {| grad := []; trace := [] |};
  Ok (emit SaveModel st).

(** The gradients each optimizer step of a trace was given. *)
Fixpoint optimizer_grads (t : list event) : list (list contribution) :=
  match t with
  | [] => []
  | OptimizerStep _ g :: t' => g :: optimizer_grads t'
  | _ :: t' => optimizer_grads t'
  end.

Fixpoint backward_kinds (t : list event) : list backward_kind :=
  match t with
  | [] => []
  | Backward k _ :: t' => k :: backward_kinds t'
  | _ :: t' => backward_kinds t'
  end.

Lemma optimizer_grads_app (t1 t2 : list event) :
  optimizer_grads (t1 ++ t2) = optimizer_grads t1 ++ optimizer_grads t2.
Proof.
  induction t1 as [|e t1 IH]; [reflexivity|].
  destruct e; simpl; now rewrite IH.
Qed.

(** Every batch starts from zeroed buffers, so an optimizer step sees at
    most the contribution of the batch it follows. *)
Lemma train_batch_grads (epoch step : nat) (st st' : train_state) :
  train_batch epoch step st = Ok st' ->
  Forall (fun g => length g <= 1) (optimizer_grads (trace st)) ->
  Forall (fun g => length g <= 1) (optimizer_grads (trace st')).
Proof.
  unfold train_batch, py_mod.
  destruct (gradient_accumulation_steps =? 0)%Z; [discriminate|].
  simpl. intros H HF.
  destruct (fp16 r), (use_amp_for_fp16_from r =? 1)%Z,
    (use_amp_for_fp16_from r =? 2)%Z,
    (((Z.of_nat step + 1) mod gradient_accumulation_steps =? 0)%Z
     || (step + 1 =? batch_total_step)), do_warmup;
    injection H as <-; simpl;
    repeat (rewrite optimizer_grads_app; simpl);
    rewrite ?app_nil_r;
    repeat (apply Forall_app; split); auto.
Qed.

Lemma train_batches_grads (epoch step n : nat) (st st' : train_state) :
  train_batches epoch step n st = Ok st' ->
  Forall (fun g => length g <= 1) (optimizer_grads (trace st)) ->
  Forall (fun g => length g <= 1) (optimizer_grads (trace st')).
Proof.
  revert step st. induction n as [|n IH]; intros step st; simpl.
  - now intros [= <-].
  - destruct (train_batch epoch step st) as [st1|e] eqn:E; simpl;
      [|discriminate].
    intros H HF. eapply IH; [exact H|]. eapply train_batch_grads; eauto.
Qed.

Lemma train_epochs_grads (epoch n : nat) (st st' : train_state) :
  train_epochs epoch n st = Ok st' ->
  Forall (fun g => length g <= 1) (optimizer_grads (trace st)) ->
  Forall (fun g => length g <= 1) (optimizer_grads (trace st')).
Proof.
  revert epoch st. induction n as [|n IH]; intros epoch st; simpl.
  - now intros [= <-].
  - destruct (train_batches epoch 0 batch_total_step st) as [st1|e] eqn:E;
      simpl; [|discriminate].
    intros H HF. eapply IH; [exact H|]. eapply train_batches_grads; eauto.
Qed.

End Train.

Lemma train_grads (r : runner) (gradient_accumulation_steps : Z)
    (do_warmup : bool) (batch_total_step : nat) (num_train_epochs : Z)
    (st : train_state) :
  train r gradient_accumulation_steps do_warmup batch_total_step
    num_train_epochs = Ok st ->
  Forall (fun g => length g <= 1) (optimizer_grads (trace st)).
Proof.
  unfold train.
  destruct (train_epochs r gradient_accumulation_steps do_warmup
              batch_total_step 0 (Z.to_nat num_train_epochs)
              {| grad := []; trace := [] |}) as [st1|e] eqn:E; simpl;
    [|discriminate].
  intros [= <-]. simpl. rewrite optimizer_grads_app, app_nil_r.
  eapply train_epochs_grads; [exact E|constructor].
Qed.

(** X1. Without fp16, what one batch of the loop does: zero the buffers, run the
    model, back-propagate the loss divided by [gradient_accumulation_steps],
    and, exactly when [step + 1] is a multiple of
    [gradient_accumulation_steps] or the batch is the last of the epoch,
    clip, step the optimizer on the buffers (this batch's gradient) and,
    with [do_warmup], step the scheduler. *)
Lemma train_batch_trace (r : runner) (gradient_accumulation_steps : Z)
    (do_warmup : bool) (batch_total_step epoch step : nat)
    (st : train_state) :
  fp16 r = false -> gradient_accumulation_steps <> 0%Z ->
  let loss := {| c_epoch := epoch; c_step := step;
                 c_divisor := gradient_accumulation_steps |} in
  let due := ((Z.of_nat step + 1) mod gradient_accumulation_steps =? 0)%Z
             || (step + 1 =? batch_total_step) in
  exists st',
    train_batch r gradient_accumulation_steps do_warmup batch_total_step
      epoch step st = Ok st' /\
    trace st'
    = trace st ++ [ZeroGrad; Forward epoch step false;
                   Backward plain_backward loss]
      ++ (if due then
            [ClipGradNorm; OptimizerStep false [loss]]
            ++ (if do_warmup then [SchedulerStep] else [])
          else []).
Proof.
  intros Hfp Hk loss due. unfold train_batch, py_mod.
  apply Z.eqb_neq in Hk. rewrite Hfp, Hk. simpl. fold loss. fold due.
  destruct due, do_warmup; eexists; (split; [reflexivity|]); simpl;
    rewrite <- ?app_assoc; reflexivity.
Qed.

(** [train_batch_trace] at batch 1 of 2 with
    [gradient_accumulation_steps = 2] and warm-up. *)
Lemma train_batch_trace_witness :
  exists st',
    train_batch plain_runner 2 true 2 0 1 {| grad := []; trace := [] |}
    = Ok st' /\
    trace st'
    = [ZeroGrad; Forward 0 1 false;
       Backward plain_backward {| c_epoch := 0; c_step := 1; c_divisor := 2 |};
       ClipGradNorm;
       OptimizerStep false [{| c_epoch := 0; c_step := 1; c_divisor := 2 |}];
       SchedulerStep].
Proof.
  destruct (train_batch_trace plain_runner 2 true 2 0 1
              {| grad := []; trace := [] |} eq_refl ltac:(discriminate))
    as (st' & E & T).
  exists st'. split; [exact E|exact T].
Defined.

(** C3, the code at [gradient_accumulation_steps = 2] with one epoch of two
    batches: the one optimizer step, after batch 1, is given the gradient of
    the loss of batch 1 alone, because [zero_grad] has emptied the buffers
    at the start of that batch; the loss of batch 0 is in no update. In
    every run, whatever the settings, no optimizer step is given more than
    one batch. *)
Theorem train_zeroes_gradients_every_batch :
  (exists st,
      train plain_runner 2 false 2 1 = Ok st /\
      backward_kinds (trace st) = [plain_backward; plain_backward] /\
      optimizer_grads (trace st)
      = [[ {| c_epoch := 0; c_step := 1; c_divisor := 2 |} ]]) /\
  (forall r gradient_accumulation_steps do_warmup batch_total_step
          num_train_epochs st,
      train r gradient_accumulation_steps do_warmup batch_total_step
        num_train_epochs = Ok st ->
      Forall (fun g => length g <= 1) (optimizer_grads (trace st))).
Proof.
  split.
  - eexists. split; [vm_compute; reflexivity|]. split; reflexivity.
  - intros. eapply train_grads; eauto.
Qed.

Lemma version_below_disables_fp16 (v : version) (apex_importable : bool)
    (r : runner) :
  version_ge v (1, 6, 0) = false ->
  fp16 (_load_amp_for_fp16 v apex_importable r) = false.
Proof. intros H. unfold _load_amp_for_fp16. rewrite H. reflexivity. Qed.

(** C4, the code at torch 1.5.0 with apex importable and fp16 asked for:
    apex is selected ([_use_amp_for_fp16_from = 2]) and fp16 is switched
    off all the same, so training runs the plain [loss.backward()] and not
    apex's scaled one. Below torch 1.6.0 fp16 is switched off whether or not
    apex can be imported. *)
Theorem load_amp_disables_fp16_with_apex :
  fp16 (init_amp (1, 5, 0) true fp16_runner) = false /\
  use_amp_for_fp16_from (init_amp (1, 5, 0) true fp16_runner) = 2%Z /\
  amp (init_amp (1, 5, 0) true fp16_runner) = Some apex_amp /\
  (exists st,
      train (init_amp (1, 5, 0) true fp16_runner) 1 false 1 1 = Ok st /\
      backward_kinds (trace st) = [plain_backward]) /\
  (forall v apex_importable r,
      version_ge v (1, 6, 0) = false ->
      fp16 (_load_amp_for_fp16 v apex_importable r) = false).
Proof.
  split; [reflexivity|]. split; [reflexivity|]. split; [reflexivity|].
  split.
  - eexists. split; [vm_compute; reflexivity|reflexivity].
  - intros v apex_importable r. apply version_below_disables_fp16.
Qed.

(** With torch 1.6.0 or later the native amp is selected and fp16 stays on. *)
Example load_amp_native :
  init_amp (1, 6, 0) false fp16_runner
  = {| fp16 := true; use_amp_for_fp16_from := 1;
       amp := Some torch_cuda_amp; amp_scaler := true |}.
Proof. reflexivity. Qed.

End Training.

(** ** Evaluation and prediction: [_run_eval], [predict] *)

Module Evaluation.

(** What [np.argmax] can hand back: one index, or one index per row. *)
Inductive np_value : Type :=
| np_int64 (i : nat)
| np_array (l : list nat).

(** The first position of the largest value, scanning from position [i]
    with the best so far [best] at [best_i]. *)
Fixpoint argmax_from (best_i : nat) (best : Q) (i : nat) (l : list Q) : nat :=
  match l with
  | [] => best_i
  | x :: l' =>
      match (best ?= x)%Q with
      | Lt => argmax_from i x (S i) l'
      | _ => argmax_from best_i best (S i) l'
      end
  end.

(** [np.argmax(a)] with no [axis]: the index of the largest entry of the
    flattened array, one number. *)
Definition np_argmax (a : list (list Q)) : result np_value :=
  match concat a with
  | [] => Raise ValueError
  | x :: l => Ok (np_int64 (argmax_from 0 x 1 l))
  end.

(** [for x in v]: a NumPy scalar cannot be iterated. *)
Definition np_iter (v : np_value) : result (list nat) :=
  match v with
  | np_int64 _ => Raise TypeError
  | np_array l => Ok l
  end.

(** The loop of [_run_eval] over the model's outputs, one [(loss, logits)]
    per batch, [logits] with one row per example of the batch:
    [temp_loss += loss.item()] and
    [preds = logits if preds is None else np.append(preds, logits, axis=0)]. *)
Definition eval_batch (acc : Q * option (list (list Q)))
    (out : Q * list (list Q)) : Q * option (list (list Q)) :=
  let '(temp_loss, preds) := acc in
  let '(loss, logits) := out in
  ((temp_loss + loss)%Q,
   Some (match preds with
         | None => logits
         | Some p => p ++ logits
         end)).

(** [TaskRunner._run_eval]; [total_sample_num] is [len(batch_iter)], the
    number of batches. *)
Definition _run_eval (outputs : list (Q * list (list Q)))
  : result (np_value * Q) :=
  let '(temp_loss, preds) := fold_left eval_batch outputs (0%Q, None) in
  let total_sample_num := length outputs in
  if total_sample_num =? 0 then Raise ZeroDivisionError
  else
    let temp_loss := (temp_loss / inject_Z (Z.of_nat total_sample_num))%Q in
    match preds with
    | None => Raise TypeError
    | Some p => preds ← np_argmax p; Ok (preds, temp_loss)
    end.

(** [TaskRunner.predict]:
    [preds = [self.idx2label[pred] for pred in preds]]. *)
Definition predict (idx2label : gmap nat string)
    (outputs : list (Q * list (list Q))) : result (list string) :=
  '(preds, _) ← _run_eval outputs;
  indices ← np_iter preds;
  mapM (fun pred => match idx2label !! pred with
                    | Some l => Ok l
                    | None => Raise KeyError
                    end) indices.

(** Three examples, two classes; the largest logit of each row is in
    column 0, 1, 1. *)
Definition three_examples : list (Q * list (list Q)) :=
  [ (1%Q, [[5%Q; 1%Q]; [2%Q; 3%Q]]); (1%Q, [[0%Q; 9%Q]]) ].

Definition two_labels : gmap nat string :=
  <[0 := "no"]> (<[1 := "yes"]> ∅).

Lemma np_argmax_scalar (a : list (list Q)) (v : np_value) :
  np_argmax a = Ok v -> exists i, v = np_int64 i.
Proof.
  unfold np_argmax. destruct (concat a); [discriminate|].
  intros [= <-]. eauto.
Qed.

Lemma run_eval_scalar (outputs : list (Q * list (list Q)))
    (v : np_value) (loss : Q) :
  _run_eval outputs = Ok (v, loss) -> exists i, v = np_int64 i.
Proof.
  unfold _run_eval.
  destruct (fold_left eval_batch outputs (0%Q, None)) as [tl [p|]];
    destruct (length outputs =? 0); try discriminate.
  destruct (np_argmax p) as [v'|e] eqn:E; simpl; [|discriminate].
  intros [= <- _]. eapply np_argmax_scalar; eauto.
Qed.

(** C5, the code at two batches holding three examples: [_run_eval] hands
    back the single number 5, the position of the largest of the six
    logits, and no vector of three classes; [predict] then raises
    [TypeError] where it iterates over it. For every input, what [_run_eval]
    returns is one number, and [predict] returns no labels. *)
Theorem run_eval_returns_one_index :
  (exists loss,
      _run_eval three_examples = Ok (np_int64 5, loss) /\ (loss == 1)%Q) /\
  predict two_labels three_examples = Raise TypeError /\
  (forall outputs v loss,
      _run_eval outputs = Ok (v, loss) -> exists i, v = np_int64 i) /\
  (forall idx2label outputs labels,
      predict idx2label outputs <> Ok labels).
Proof.
  split; [eexists; split; [vm_compute; reflexivity|reflexivity]|].
  split; [vm_compute; reflexivity|].
  split; [apply run_eval_scalar|].
  intros idx2label outputs labels. unfold predict.
  destruct (_run_eval outputs) as [[v loss]|e] eqn:E; simpl; [|discriminate].
  apply run_eval_scalar in E as [i ->]. discriminate.
Qed.

End Evaluation.

(** ** Label indexing: [DataProcessor.get_labels] *)

Module Labels.

(** [{k: v for v, k in enumerate(labels)}]: later entries overwrite. *)
Definition label2idx_of (labels : list string) : gmap string nat :=
  fold_left (fun m '(v, k) => <[k := v]> m) (enumerate_from 0 labels) ∅.

(** [{v: k for k, v in items}]. *)
Definition idx2label_of (items : list (string * nat)) : gmap nat string :=
  fold_left (fun m '(k, v) => <[v := k]> m) items ∅.

(** The loop over [enumerate(lines)] from index [i]: row 0 is skipped,
    [line[0]] of every other row is added; an empty row raises. *)
Fixpoint collect_labels (i : nat) (lines : list (list string))
    (unique_labels : gset string) : result (gset string) :=
  match lines with
  | [] => Ok unique_labels
  | line :: rest =>
      if i =? 0 then collect_labels (S i) rest unique_labels
      else match line with
           | [] => Raise IndexError
           | l :: _ => collect_labels (S i) rest (unique_labels ∪ {[l]})
           end
  end.

Section Order.

(** The order in which Python iterates over a set is not fixed by the
    language, and a [gmap] does not keep the order of insertion of a
    [dict]: both orders are parameters, any enumeration without repeats. *)
Variable set_iter : gset string -> list string.
Variable dict_items : gmap string nat -> list (string * nat).

(** [DataProcessor.get_labels], from the rows that [_read_tsv] returns. *)
Definition get_labels (lines : list (list string))
  : result (gset string * gmap string nat * gmap nat string) :=
  unique_labels ← collect_labels 0 lines ∅;
  let label2idx := label2idx_of (set_iter unique_labels) in
  let idx2label := idx2label_of (dict_items label2idx) in
  Ok (unique_labels, label2idx, idx2label).

End Order.

Lemma label2idx_of_snoc (labels : list string) (x : string) :
  label2idx_of (labels ++ [x]) = <[x := length labels]> (label2idx_of labels).
Proof.
  unfold label2idx_of. rewrite enumerate_from_app, fold_left_app. reflexivity.
Qed.

(** Over labels without repeats, [label2idx] sends a label to its position. *)
Lemma label2idx_of_lookup (labels : list string) (k : string) (v : nat) :
  NoDup labels -> label2idx_of labels !! k = Some v <-> labels !! v = Some k.
Proof.
  induction labels as [|x labels IH] using rev_ind; intros Hnd.
  - unfold label2idx_of. simpl. rewrite lookup_empty. split; discriminate.
  - apply NoDup_app in Hnd as (Hnd & Hx & _).
    rewrite label2idx_of_snoc, lookup_snoc_Some.
    destruct (decide (x = k)) as [->|Hne].
    + rewrite lookup_insert_eq. split.
      * intros [= <-]. now right.
      * intros [[_ Hl]|[-> _]]; [|reflexivity].
        exfalso. apply (Hx k); [|apply list_elem_of_singleton; reflexivity].
        apply list_elem_of_lookup. eauto.
    + rewrite lookup_insert_ne by assumption. rewrite (IH Hnd). split.
      * intros Hl. left. split; [|assumption].
        apply lookup_lt_is_Some. eauto.
      * intros [[_ Hl]|[_ ?]]; [assumption|contradiction].
Qed.

Lemma idx2label_of_snoc (items : list (string * nat)) (k : string) (v : nat) :
  idx2label_of (items ++ [(k, v)]) = <[v := k]> (idx2label_of items).
Proof. unfold idx2label_of. rewrite fold_left_app. reflexivity. Qed.

(** Over items with pairwise distinct values, [idx2label] inverts them. *)
Lemma idx2label_of_lookup (items : list (string * nat)) (k : string) (v : nat) :
  NoDup (items.*2) -> idx2label_of items !! v = Some k <-> (k, v) ∈ items.
Proof.
  induction items as [|[k' v'] items IH] using rev_ind; intros Hnd.
  - unfold idx2label_of. simpl. rewrite lookup_empty.
    split; [discriminate|]. intros H. inversion H.
  - rewrite fmap_app in Hnd. apply NoDup_app in Hnd as (Hnd & Hx & _).
    rewrite idx2label_of_snoc, elem_of_app, list_elem_of_singleton.
    destruct (decide (v' = v)) as [->|Hne].
    + rewrite lookup_insert_eq. split.
      * intros [= <-]. now right.
      * intros [Hin|[= -> ]]; [|reflexivity].
        exfalso. apply (Hx v); [|apply list_elem_of_singleton; reflexivity].
        apply list_elem_of_fmap. exists (k, v). auto.
    + rewrite lookup_insert_ne by assumption. rewrite (IH Hnd). split.
      * auto.
      * intros [Hin|[= _ ?]]; [assumption|congruence].
Qed.

Lemma collect_labels_S_spec (i : nat) (lines : list (list string))
    (acc unique_labels : gset string) :
  collect_labels (S i) lines acc = Ok unique_labels ->
  forall l, l ∈ unique_labels <-> l ∈ acc \/ exists rest, (l :: rest) ∈ lines.
Proof.
  revert i acc. induction lines as [|line lines IH]; intros i acc; simpl.
  - intros [= <-] l. split; [auto|]. intros [H|[rest H]]; [auto|inversion H].
  - destruct line as [|l0 rest0]; [discriminate|].
    intros H l. rewrite (IH _ _ H l), elem_of_union, elem_of_singleton.
    split.
    + intros [[Hl| ->]|[rest Hr]]; auto.
      * right. exists rest0. apply list_elem_of_here.
      * right. exists rest. now apply list_elem_of_further.
    + intros [Hl|[rest Hr]]; auto.
      apply elem_of_cons in Hr as [[= -> _]|Hr]; eauto.
Qed.

Lemma collect_labels_S_ok (i : nat) (lines : list (list string))
    (acc : gset string) :
  Forall (fun row => row <> []) lines ->
  exists unique_labels, collect_labels (S i) lines acc = Ok unique_labels.
Proof.
  revert i acc. induction lines as [|line lines IH]; intros i acc HF; simpl.
  - eauto.
  - inversion HF as [|? ? Hne HF']; subst.
    destruct line as [|l0 rest0]; [congruence|]. now apply IH.
Qed.

Section Inverse.

Variable set_iter : gset string -> list string.
Hypothesis set_iter_perm : forall X, set_iter X ≡ₚ elements X.
Variable dict_items : gmap string nat -> list (string * nat).
Hypothesis dict_items_perm : forall m, dict_items m ≡ₚ map_to_list m.

Lemma set_iter_NoDup (X : gset string) : NoDup (set_iter X).
Proof. rewrite set_iter_perm. apply NoDup_elements. Qed.

Lemma set_iter_lookup (X : gset string) (l : string) :
  l ∈ X <-> exists i, set_iter X !! i = Some l.
Proof.
  rewrite <- list_elem_of_lookup, set_iter_perm. symmetry.
  apply elem_of_elements.
Qed.

Lemma set_iter_length (X : gset string) : length (set_iter X) = size X.
Proof. now rewrite set_iter_perm. Qed.

Lemma label2idx_lookup (X : gset string) (k : string) (v : nat) :
  label2idx_of (set_iter X) !! k = Some v <-> set_iter X !! v = Some k.
Proof. apply label2idx_of_lookup, set_iter_NoDup. Qed.

Lemma idx2label_lookup (X : gset string) (k : string) (v : nat) :
  idx2label_of (dict_items (label2idx_of (set_iter X))) !! v = Some k
  <-> label2idx_of (set_iter X) !! k = Some v.
Proof.
  rewrite idx2label_of_lookup.
  - rewrite dict_items_perm. apply elem_of_map_to_list.
  - rewrite dict_items_perm. apply NoDup_fmap_2_strong.
    + intros [k1 v1] [k2 v2] H1 H2. simpl. intros <-.
      apply elem_of_map_to_list, label2idx_lookup in H1.
      apply elem_of_map_to_list, label2idx_lookup in H2.
      congruence.
    + apply NoDup_map_to_list.
Qed.

End Inverse.

(** C9. For rows read from a file whose rows after the header are not
    empty, [get_labels] returns the set of the first-column entries of
    these rows and two maps that are inverse to each other: each label of
    the set has an index that [idx2label] sends back to it, each index of
    [idx2label] holds a label that [label2idx] sends back to it, and the
    indices in use are exactly those below the number of labels. This holds
    in whatever order the set and the dictionary are iterated. *)
Theorem get_labels_inverse_maps
    (set_iter : gset string -> list string)
    (dict_items : gmap string nat -> list (string * nat))
    (lines : list (list string)) :
  (forall X, set_iter X ≡ₚ elements X) ->
  (forall m, dict_items m ≡ₚ map_to_list m) ->
  Forall (fun row => row <> []) (tail lines) ->
  exists unique_labels label2idx idx2label,
    get_labels set_iter dict_items lines
    = Ok (unique_labels, label2idx, idx2label) /\
    (forall l, l ∈ unique_labels <-> exists rest, (l :: rest) ∈ tail lines) /\
    (forall l, l ∈ unique_labels ->
       exists i, label2idx !! l = Some i /\ idx2label !! i = Some l) /\
    (forall i l, idx2label !! i = Some l ->
       label2idx !! l = Some i /\ l ∈ unique_labels) /\
    (forall i, i < size unique_labels <-> exists l, label2idx !! l = Some i) /\
    (forall i, i < size unique_labels <-> is_Some (idx2label !! i)).
Proof.
  intros Hset Hdict Hrows. unfold get_labels.
  assert (exists ul, collect_labels 0 lines ∅ = Ok ul /\
            forall l, l ∈ ul <-> exists rest, (l :: rest) ∈ tail lines)
    as (ul & -> & Hul).
  { destruct lines as [|header rows]; simpl in *.
    - exists ∅. split; [reflexivity|]. intros l. split.
      + intros H. now apply not_elem_of_empty in H.
      + intros [rest H]. inversion H.
    - destruct (collect_labels_S_ok 0 rows ∅ Hrows) as [ul Hc].
      exists ul. split; [assumption|]. intros l.
      rewrite (collect_labels_S_spec _ _ _ _ Hc l). split; [|auto].
      intros [H|H]; [now apply not_elem_of_empty in H|assumption]. }
  simpl. eexists _, _, _. split; [reflexivity|].
  pose proof (label2idx_lookup set_iter Hset ul) as H2.
  pose proof (idx2label_lookup set_iter Hset dict_items Hdict ul) as H1.
  split; [exact Hul|]. split; [|split; [|split]].
  - intros l Hl. apply (set_iter_lookup set_iter Hset) in Hl as [i Hi].
    exists i. assert (label2idx_of (set_iter ul) !! l = Some i) as Hli
      by now apply H2.
    split; [exact Hli|now apply H1].
  - intros i l Hi. apply H1 in Hi. split; [exact Hi|].
    apply (set_iter_lookup set_iter Hset). exists i. now apply H2.
  - intros i. rewrite <- (set_iter_length set_iter Hset).
    rewrite <- lookup_lt_is_Some. split.
    + intros [l Hl]. exists l. now apply H2.
    + intros [l Hl]. exists l. now apply H2.
  - intros i. rewrite <- (set_iter_length set_iter Hset).
    rewrite <- lookup_lt_is_Some. split.
    + intros [l Hl]. exists l. now apply H1, H2.
    + intros [l Hl]. exists l. now apply H2, H1.
Qed.

(** C9 on a file with a header and three rows, two of them alike. *)
Lemma get_labels_witness :
  exists unique_labels label2idx idx2label,
    get_labels elements map_to_list
      [["label"; "s1"; "s2"]; ["yes"; "a"; "b"]; ["no"; "c"; "d"];
       ["yes"; "e"; "f"]]
    = Ok (unique_labels, label2idx, idx2label) /\
    (forall l, l ∈ unique_labels ->
       exists i, label2idx !! l = Some i /\ idx2label !! i = Some l) /\
    (forall i, i < size unique_labels <-> is_Some (idx2label !! i)).
Proof.
  destruct (get_labels_inverse_maps elements map_to_list
              [["label"; "s1"; "s2"]; ["yes"; "a"; "b"]; ["no"; "c"; "d"];
               ["yes"; "e"; "f"]])
    as (ul & l2i & i2l & E & _ & H1 & _ & _ & H2).
  - reflexivity.
  - reflexivity.
  - simpl. repeat constructor; discriminate.
  - exists ul, l2i, i2l. auto.
Defined.

End Labels.

(** ** Data loading: [features2tensors], [relation_extraction_data_loader] *)

Module Loader.

(** The calls into the logger and into torch, in the order they are made. *)
Inductive call : Type :=
| LoggerInfo (idx : nat)
| TorchTensor
| TorchZeros
| NewTensorDataset
| NewRandomSampler
| NewSequentialSampler
| NewDataLoader.

(** A computation that calls out: the calls it made and how it ended. *)
Record io (A : Type) : Type := IO {
  calls : list call;
  outcome : result A
}.

Arguments IO {A} calls outcome.
Arguments calls {A} _.
Arguments outcome {A} _.

#[global] Instance io_ret : MRet io := fun A a => IO [] (Ok a).
#[global] Instance io_bind : MBind io := fun A B f m =>
  match outcome m with
  | Ok a => IO (calls m ++ calls (f a)) (outcome (f a))
  | Raise e => IO (calls m) (Raise e)
  end.

(** One call [c] that ends as [r]. *)
Definition calling {A : Type} (c : call) (r : result A) : io A := IO [c] r.

Definition raise {A : Type} (e : exn) : io A := IO [] (Raise e).

(** [InputFeatures]. *)
Record InputFeatures : Type := {
  input_ids : list Z;
  attention_mask : list Z;
  token_type_ids : option (list Z);
  label : Z
}.

(** [if feature.token_type_ids:], [None] and the empty list are false. *)
Definition truthy (x : option (list Z)) : option (list Z) :=
  match x with
  | Some (_ :: _) => x
  | _ => None
  end.

Section Torch.

(** torch is a black box: its tensors, data sets, samplers and loaders are
    abstract, and each constructor may raise. *)
Context {tensor dataset sampler loader : Type}.
Variable torch_tensor : list (list Z) -> result tensor.
Variable torch_tensor_1d : list Z -> result tensor.
Variable torch_zeros_shape_of : tensor -> result tensor.
Variable TensorDataset : tensor -> tensor -> tensor -> tensor -> result dataset.
Variable RandomSampler : dataset -> result sampler.
Variable SequentialSampler : dataset -> result sampler.
Variable DataLoader : dataset -> sampler -> Z -> bool -> result loader.

(** The four lists the loop of [features2tensors] fills. *)
Record columns : Type := {
  tensor_input_ids : list (list Z);
  tensor_attention_masks : list (list Z);
  tensor_token_type_ids : list (list Z);
  tensor_label_ids : list Z
}.

(** [for idx, feature in enumerate(features)], from index [idx]. *)
Fixpoint fill_columns (logger : bool) (idx : nat)
    (features : list InputFeatures) (cols : columns) : io columns :=
  match features with
  | [] => mret cols
  | feature :: rest =>
      _ ← (if logger && (idx <? 3) then calling (LoggerInfo idx) (Ok tt)
           else mret tt);
      fill_columns logger (S idx) rest
        {| tensor_input_ids := tensor_input_ids cols ++ [input_ids feature];
           tensor_attention_masks :=
             tensor_attention_masks cols ++ [attention_mask feature];
           tensor_token_type_ids :=
             match truthy (token_type_ids feature) with
             | Some t => tensor_token_type_ids cols ++ [t]
             | None => tensor_token_type_ids cols
             end;
           tensor_label_ids := tensor_label_ids cols ++ [label feature] |}
  end.

(** [features2tensors]. *)
Definition features2tensors (features : list InputFeatures) (logger : bool)
  : io dataset :=
  cols ← fill_columns logger 0 features
           {| tensor_input_ids := []; tensor_attention_masks := [];
              tensor_token_type_ids := []; tensor_label_ids := [] |};
  ids ← calling TorchTensor (torch_tensor (tensor_input_ids cols));
  masks ← calling TorchTensor (torch_tensor (tensor_attention_masks cols));
  labels ← calling TorchTensor (torch_tensor_1d (tensor_label_ids cols));
  types ← match tensor_token_type_ids cols with
          | _ :: _ =>
              calling TorchTensor (torch_tensor (tensor_token_type_ids cols))
          | [] => calling TorchZeros (torch_zeros_shape_of masks)
          end;
  calling NewTensorDataset (TensorDataset ids masks types labels).

(** [relation_extraction_data_loader]; [pin_memory] is always [True]. *)
Definition relation_extraction_data_loader (dataset_ : list InputFeatures)
    (batch_size : Z) (task : string) (logger : bool) : io loader :=
  dataset_ ← features2tensors dataset_ logger;
  sampler_ ← (if String.eqb task "train"
              then calling NewRandomSampler (RandomSampler dataset_)
              else if String.eqb task "test"
              then calling NewSequentialSampler (SequentialSampler dataset_)
              else raise ValueError);
  calling NewDataLoader (DataLoader dataset_ sampler_ batch_size true).

(** The calls of the conversion: the logger and the tensor constructors. *)
Definition conversion_call (c : call) : Prop :=
  match c with
  | LoggerInfo _ | TorchTensor | TorchZeros | NewTensorDataset => True
  | _ => False
  end.

End Torch.

(** A torch that never raises, with the objects it builds written out. *)
Inductive toy_sampler : Type :=
| toy_random
| toy_sequential.

Definition toy_tensor : Type := list (list Z).
Definition toy_dataset : Type :=
  (toy_tensor * toy_tensor * toy_tensor * toy_tensor)%type.
Definition toy_loader : Type := (toy_dataset * toy_sampler * Z * bool)%type.

Definition toy_features : list InputFeatures :=
  [ {| input_ids := [101; 7; 102]%Z; attention_mask := [1; 1; 1]%Z;
       token_type_ids := Some [0; 0; 0]%Z; label := 1%Z |} ].

Definition toy_run (task : string) : io toy_loader :=
  relation_extraction_data_loader
    (fun l => Ok l) (fun l => Ok [l]) (fun t => Ok (map (map (fun _ => 0%Z)) t))
    (fun a b c d => Ok (a, b, c, d))
    (fun _ => Ok toy_random) (fun _ => Ok toy_sequential)
    (fun d s b p => Ok (d, s, b, p))
    toy_features 2 task true.

Section TorchFacts.

Context {tensor dataset sampler loader : Type}.
Variable torch_tensor : list (list Z) -> result tensor.
Variable torch_tensor_1d : list Z -> result tensor.
Variable torch_zeros_shape_of : tensor -> result tensor.
Variable TensorDataset : tensor -> tensor -> tensor -> tensor -> result dataset.

Lemma fill_columns_calls (logger : bool) (idx : nat)
    (features : list InputFeatures) (cols : columns) :
  Forall conversion_call (calls (fill_columns logger idx features cols)) /\
  exists cols', outcome (fill_columns logger idx features cols) = Ok cols'.
Proof.
  revert idx cols. induction features as [|f rest IH]; intros idx cols.
  - simpl. split; [constructor|eauto].
  - simpl. unfold mbind, io_bind.
    destruct (logger && (idx <? 3)); simpl;
      match goal with
      | |- context [fill_columns logger (S idx) rest ?c] =>
          destruct (IH (S idx) c) as [HF [cols' Hc]]
      end; rewrite Hc; split; eauto; repeat constructor; auto.
Qed.

Lemma features2tensors_calls (features : list InputFeatures) (logger : bool) :
  let conversion :=
    features2tensors torch_tensor torch_tensor_1d torch_zeros_shape_of
      TensorDataset features logger in
  Forall conversion_call (calls conversion) /\
  forall ds, outcome conversion = Ok ds -> NewTensorDataset ∈ calls conversion.
Proof.
  unfold features2tensors. cbv zeta.
  match goal with
  | |- context [fill_columns logger 0 features ?c] =>
      destruct (fill_columns_calls logger 0 features c) as [HF [cols Hc]];
      destruct (fill_columns logger 0 features c) as [cs o]
  end.
  simpl in *. subst o. unfold mbind, io_bind, calling. simpl.
  destruct (torch_tensor (tensor_input_ids cols)) as [ids|e]; simpl;
    [|rewrite ?app_nil_r; split; [repeat (apply Forall_app; split); auto;
        repeat constructor|discriminate]].
  destruct (torch_tensor (tensor_attention_masks cols)) as [masks|e]; simpl;
    [|split; [repeat (apply Forall_app; split); auto; repeat constructor
             |discriminate]].
  destruct (torch_tensor_1d (tensor_label_ids cols)) as [labels|e]; simpl;
    [|split; [repeat (apply Forall_app; split); auto; repeat constructor
             |discriminate]].
  destruct (tensor_token_type_ids cols) as [|t ts]; simpl.
  - destruct (torch_zeros_shape_of masks) as [types|e]; simpl;
      [|split; [repeat (apply Forall_app; split); auto; repeat constructor
               |discriminate]].
    split; [repeat (apply Forall_app; split); auto; repeat constructor|].
    intros ds _. apply elem_of_app. right. simpl.
    repeat first [apply list_elem_of_here | apply list_elem_of_further].
  - destruct (torch_tensor (t :: ts)) as [types|e]; simpl;
      [|split; [repeat (apply Forall_app; split); auto; repeat constructor
               |discriminate]].
    split; [repeat (apply Forall_app; split); auto; repeat constructor|].
    intros ds _. apply elem_of_app. right. simpl.
    repeat first [apply list_elem_of_here | apply list_elem_of_further].
Qed.

End TorchFacts.

(** C10. Once the conversion of the features has gone through, a [task]
    other than ['train'] and ['test'] ends in [ValueError] with no call made
    beyond those of the conversion (no sampler, no [DataLoader]); for
    ['train'] the result is the [DataLoader] over the converted data set
    with a [RandomSampler] on it, for ['test'] with a [SequentialSampler],
    each with the given batch size and [pin_memory=True]. *)
Theorem data_loader_dispatches_on_task {tensor dataset sampler loader : Type}
    (torch_tensor : list (list Z) -> result tensor)
    (torch_tensor_1d : list Z -> result tensor)
    (torch_zeros_shape_of : tensor -> result tensor)
    (TensorDataset : tensor -> tensor -> tensor -> tensor -> result dataset)
    (RandomSampler SequentialSampler : dataset -> result sampler)
    (DataLoader : dataset -> sampler -> Z -> bool -> result loader)
    (features : list InputFeatures) (batch_size : Z) (task : string)
    (logger : bool) (ds : dataset) :
  outcome (features2tensors torch_tensor torch_tensor_1d torch_zeros_shape_of
             TensorDataset features logger) = Ok ds ->
  let conversion :=
    features2tensors torch_tensor torch_tensor_1d torch_zeros_shape_of
      TensorDataset features logger in
  let run :=
    relation_extraction_data_loader torch_tensor torch_tensor_1d
      torch_zeros_shape_of TensorDataset RandomSampler SequentialSampler
      DataLoader features batch_size task logger in
  (task <> "train" -> task <> "test" ->
     outcome run = Raise ValueError /\
     calls run = calls conversion /\
     (NewTensorDataset ∈ calls run) /\
     (NewDataLoader ∉ calls run) /\
     (NewRandomSampler ∉ calls run) /\
     (NewSequentialSampler ∉ calls run)) /\
  (task = "train" ->
     forall s, RandomSampler ds = Ok s ->
       outcome run = DataLoader ds s batch_size true /\
       calls run = calls conversion ++ [NewRandomSampler; NewDataLoader]) /\
  (task = "test" ->
     forall s, SequentialSampler ds = Ok s ->
       outcome run = DataLoader ds s batch_size true /\
       calls run = calls conversion ++ [NewSequentialSampler; NewDataLoader]).
Proof.
  intros Hconv conversion run.
  destruct (features2tensors_calls torch_tensor torch_tensor_1d
              torch_zeros_shape_of TensorDataset features logger)
    as [HF Hds].
  specialize (Hds ds Hconv). fold conversion in HF, Hds, Hconv.
  unfold run, relation_extraction_data_loader. fold conversion.
  unfold mbind, io_bind. rewrite Hconv. simpl.
  split; [|split].
  - intros Htrain Htest.
    apply String.eqb_neq in Htrain, Htest. rewrite Htrain, Htest. simpl.
    rewrite app_nil_r. repeat split; auto.
    + intros Hin. rewrite Forall_forall in HF. apply (HF _ Hin).
    + intros Hin. rewrite Forall_forall in HF. apply (HF _ Hin).
    + intros Hin. rewrite Forall_forall in HF. apply (HF _ Hin).
  - intros -> s Hs. simpl. rewrite Hs. simpl. auto.
  - intros -> s Hs. simpl. rewrite Hs. simpl. auto.
Qed.

(** C10 on one feature, for the tasks ['dev'], ['train'] and ['test']. *)
Lemma data_loader_witness :
  (outcome (toy_run "dev") = Raise ValueError /\
   calls (toy_run "dev")
   = [LoggerInfo 0; TorchTensor; TorchTensor; TorchTensor; TorchTensor;
      NewTensorDataset]) /\
  (exists d, outcome (toy_run "train") = Ok (d, toy_random, 2%Z, true)) /\
  (exists d, outcome (toy_run "test") = Ok (d, toy_sequential, 2%Z, true)).
Proof.
  split; [|split].
  - pose proof (data_loader_dispatches_on_task
      (fun l => Ok l) (fun l => Ok [l])
      (fun t => Ok (map (map (fun _ => 0%Z)) t))
      (fun a b c d => Ok (a, b, c, d))
      (fun _ => Ok toy_random) (fun _ => Ok toy_sequential)
      (fun d s b p => Ok (d, s, b, p))
      toy_features 2 "dev" true _ eq_refl) as (H & _).
    destruct (H ltac:(discriminate) ltac:(discriminate)) as (Ho & Hc & _).
    split; [exact Ho|exact Hc].
  - eexists. vm_compute. reflexivity.
  - eexists. vm_compute. reflexivity.
Defined.

End Loader.

(** ** More on the truncation loops *)

Module TruncationFacts.
Import Text Truncation.

Section Processor.

Context {token : Type}.
Variable tokenize : string -> list token.
Variable SPEC_TAGS : list string.
Variable max_seq_len : Z.

(** One word list is another with [n] words cut off at its two ends. *)
Definition trimmed (n : nat) (ws ws' : list string) : Prop :=
  exists front back, ws = front ++ ws' ++ back /\ length front + length back = n.

Lemma trimmed_refl (ws : list string) : trimmed 0 ws ws.
Proof. exists [], []. now rewrite app_nil_r. Qed.

Lemma trimmed_step (n : nat) (ws ws1 ws' : list string) :
  trimmed 1 ws ws1 -> trimmed n ws1 ws' -> trimmed (S n) ws ws'.
Proof.
  intros (f1 & b1 & -> & H1) (f2 & b2 & -> & H2).
  exists (f1 ++ f2), (b2 ++ b1). rewrite !length_app. split; [|lia].
  now rewrite <- !app_assoc.
Qed.

Lemma pop_longer_side_trimmed (w w' : list string) (t1 t2 : nat) :
  pop_longer_side w t1 t2 = Ok w' -> trimmed 1 w w'.
Proof.
  unfold pop_longer_side.
  destruct (Z.of_nat t1 - 0 >? Z.of_nat (length w) - Z.of_nat t2)%Z.
  - destruct w as [|x r]; [discriminate|]. intros [= <-].
    exists [x], []. now rewrite app_nil_r.
  - assert (w <> [] \/ w = []) as [Hne| ->]
      by (destruct w; [now right|now left]); [|discriminate].
    rewrite (pop_last_ok w Hne). intros [= <-].
    destruct (removelast_snoc w Hne) as [y Hy].
    exists [], [y]. split; [exact Hy|reflexivity].
Qed.

Lemma Uni_body_trimmed (text text' : string) :
  Uni_body SPEC_TAGS text = Ok text' -> trimmed 1 (split text) (split text').
Proof.
  intros H. apply Uni_body_inv in H as (t1 & t2 & w' & Ht & Hp & ->).
  destruct (pop_longer_side_ok SPEC_TAGS _ _ _ Ht) as (w'' & Hp' & _ & Hne & HF).
  rewrite Hp in Hp'. injection Hp' as <-.
  rewrite split_join; [|assumption|apply HF, split_no_space].
  eapply pop_longer_side_trimmed; eauto.
Qed.

Lemma Uni_iter_trimmed (n : nat) (text text' : string) :
  Uni_iter SPEC_TAGS n text = Ok text' -> trimmed n (split text) (split text').
Proof.
  revert text. induction n as [|n IH]; intros text.
  - intros [= <-]. apply trimmed_refl.
  - intros H. apply Uni_iter_S in H as (t1 & Hb & Hi).
    eapply trimmed_step; [eapply Uni_body_trimmed; eauto|eauto].
Qed.

(** A loop that returns has run the body some number of times. *)
Lemma Uni_while_iter (fuel : nat) (text text' : string) :
  Uni_while tokenize SPEC_TAGS max_seq_len fuel text = Some (Ok text') ->
  exists n, Uni_iter SPEC_TAGS n text = Ok text'.
Proof.
  revert text. induction fuel as [|fuel IH]; intros text; [discriminate|].
  simpl. destruct (Uni_too_long tokenize max_seq_len text).
  - destruct (Uni_body SPEC_TAGS text) as [t1|e] eqn:E; [|discriminate].
    intros H. destruct (IH _ H) as [n Hn]. exists (S n).
    apply Uni_iter_S. eauto.
  - intros [= <-]. now exists 0.
Qed.

Lemma Sep_while_iter (fuel : nat) (text_a text_b a' b' : string) :
  Sep_while tokenize SPEC_TAGS max_seq_len fuel text_a text_b
  = Some (Ok (a', b')) ->
  exists n, Sep_iter SPEC_TAGS n text_a text_b = Ok (a', b').
Proof.
  revert text_a text_b.
  induction fuel as [|fuel IH]; intros text_a text_b; [discriminate|].
  simpl. destruct (Sep_too_long tokenize max_seq_len text_a text_b).
  - destruct (Sep_body SPEC_TAGS text_a text_b) as [[a1 b1]|e] eqn:E;
      [|discriminate].
    intros H. destruct (IH _ _ H) as [n Hn]. exists (S n).
    simpl. now rewrite E.
  - intros [= <- <-]. now exists 0.
Qed.

Lemma Sep_body_raises (text_a text_b : string) :
  tag_count SPEC_TAGS text_a <> 2 \/ tag_count SPEC_TAGS text_b <> 2 ->
  Sep_body SPEC_TAGS text_a text_b = Raise ValueError.
Proof.
  intros H. unfold Sep_body, tag_indices, tag_count in *.
  destruct (unpack2 (tag_indices_from SPEC_TAGS 0 (split text_a)))
    as [[t1 t2]|e] eqn:Ea.
  - apply unpack2_Ok in Ea. simpl.
    destruct H as [H|H].
    + exfalso. apply H. rewrite <- (tag_indices_length SPEC_TAGS 0), Ea.
      reflexivity.
    + rewrite unpack2_Raise; [reflexivity|].
      now rewrite tag_indices_length.
  - simpl. destruct (tag_indices_from SPEC_TAGS 0 (split text_a))
      as [|a [|b [|c l]]]; simpl in Ea; congruence.
Qed.

Lemma Uni_process_raises (text_a : string) :
  tag_count SPEC_TAGS (re_sub text_a) <> 2 ->
  Uni_too_long tokenize max_seq_len (re_sub text_a) = true ->
  Uni_process_seq_len tokenize SPEC_TAGS max_seq_len text_a
  = Some (Raise ValueError).
Proof.
  intros Htags Hlong. unfold Uni_process_seq_len.
  pose proof (split_length_pos (re_sub text_a)) as Hpos.
  destruct (length (split (re_sub text_a))) as [|fuel]; [lia|].
  simpl. rewrite Hlong, (Uni_body_raises SPEC_TAGS _ Htags). reflexivity.
Qed.

Lemma Sep_process_raises (text_a text_b : string) :
  tag_count SPEC_TAGS (re_sub text_a) <> 2 \/
  tag_count SPEC_TAGS (re_sub text_b) <> 2 ->
  Sep_too_long tokenize max_seq_len (re_sub text_a) (re_sub text_b) = true ->
  Sep_process_seq_len tokenize SPEC_TAGS max_seq_len text_a text_b
  = Some (Raise ValueError).
Proof.
  intros Htags Hlong. unfold Sep_process_seq_len.
  pose proof (split_length_pos (re_sub text_a)) as Hpos.
  destruct (length (split (re_sub text_a))) as [|fuel]; [lia|].
  simpl. rewrite Hlong, (Sep_body_raises _ _ Htags). reflexivity.
Qed.

End Processor.

(** X2. Whatever [_process_seq_len] returns fits: the combined tokenized
    length of the returned texts is at most [max_seq_len], in both
    processors and for every tokenizer. *)
Theorem process_seq_len_result_fits {token : Type}
    (tokenize : string -> list token) (SPEC_TAGS : list string)
    (max_seq_len : Z) :
  (forall text_a text_b a' b',
      Sep_process_seq_len tokenize SPEC_TAGS max_seq_len text_a text_b
      = Some (Ok (a', b')) ->
      (Z.of_nat (length (tokenize a' ++ tokenize b')) <= max_seq_len)%Z) /\
  (forall text_a a',
      Uni_process_seq_len tokenize SPEC_TAGS max_seq_len text_a
      = Some (Ok a') ->
      (Z.of_nat (length (tokenize a')) <= max_seq_len)%Z).
Proof.
  split.
  - intros text_a text_b a' b' H. apply too_long_false_le.
    eapply Sep_while_returns_fit. exact H.
  - intros text_a a' H. apply too_long_false_le.
    eapply Uni_while_returns_fit. exact H.
Qed.

(** X2 on the pair of [sep_run_returns]. *)
Lemma process_seq_len_result_fits_witness :
  (Z.of_nat (length (word_tokenize "b [s1] x [e1]"
                     ++ word_tokenize "[s2] y [e2] d")) <= 8)%Z.
Proof.
  apply (proj1 (process_seq_len_result_fits word_tokenize tags4 8)
           "a b [s1] x [e1] c" "[s2] y [e2] d e f").
  vm_compute. reflexivity.
Defined.

(** X3. A text that enters the loop with a number of tag words other than
    two makes [_process_seq_len] raise [ValueError] as soon as the example
    is too long: the unpacking [t1, t2 = [...]] of the first iteration
    fails. *)
Theorem process_seq_len_raises_without_two_tags {token : Type}
    (tokenize : string -> list token) (SPEC_TAGS : list string)
    (max_seq_len : Z) :
  (forall text_a text_b,
      tag_count SPEC_TAGS (re_sub text_a) <> 2 \/
      tag_count SPEC_TAGS (re_sub text_b) <> 2 ->
      Sep_too_long tokenize max_seq_len (re_sub text_a) (re_sub text_b) = true ->
      Sep_process_seq_len tokenize SPEC_TAGS max_seq_len text_a text_b
      = Some (Raise ValueError)) /\
  (forall text_a,
      tag_count SPEC_TAGS (re_sub text_a) <> 2 ->
      Uni_too_long tokenize max_seq_len (re_sub text_a) = true ->
      Uni_process_seq_len tokenize SPEC_TAGS max_seq_len text_a
      = Some (Raise ValueError)).
Proof.
  split.
  - intros text_a text_b. apply Sep_process_raises.
  - intros text_a. apply Uni_process_raises.
Qed.

(** X3 on a text without any tag word. *)
Lemma process_seq_len_raises_witness :
  Uni_process_seq_len word_tokenize tags4 3 "no tag in these five words"
  = Some (Raise ValueError).
Proof.
  apply (proj2 (process_seq_len_raises_without_two_tags word_tokenize tags4 3)).
  - vm_compute. discriminate.
  - vm_compute. reflexivity.
Defined.

(** X4. What [_process_seq_len] returns is the input, once its markers are
    taken out, with words cut off at its two ends only: the returned words
    are a contiguous run of the input's words, in the same order. The Sep
    processor cuts the same number of words off both texts. *)
Theorem process_seq_len_trims_ends {token : Type}
    (tokenize : string -> list token) (SPEC_TAGS : list string)
    (max_seq_len : Z) :
  (forall text_a text_b a' b',
      Sep_process_seq_len tokenize SPEC_TAGS max_seq_len text_a text_b
      = Some (Ok (a', b')) ->
      exists n, trimmed n (split (re_sub text_a)) (split a') /\
                trimmed n (split (re_sub text_b)) (split b')) /\
  (forall text_a a',
      Uni_process_seq_len tokenize SPEC_TAGS max_seq_len text_a
      = Some (Ok a') ->
      exists n, trimmed n (split (re_sub text_a)) (split a')).
Proof.
  split.
  - intros text_a text_b a' b' H.
    apply Sep_while_iter in H as [n Hn]. exists n.
    apply Sep_iter_Uni in Hn as [Ha Hb].
    split; eapply Uni_iter_trimmed; eauto.
  - intros text_a a' H. apply Uni_while_iter in H as [n Hn]. exists n.
    eapply Uni_iter_trimmed; eauto.
Qed.

(** X4 on the pair of [sep_run_returns]: two words off each text. *)
Lemma process_seq_len_trims_witness :
  exists n, trimmed n (split (re_sub "a b [s1] x [e1] c"))
                      (split "b [s1] x [e1]") /\
            trimmed n (split (re_sub "[s2] y [e2] d e f"))
                      (split "[s2] y [e2] d").
Proof.
  apply (proj1 (process_seq_len_trims_ends word_tokenize tags4 8)
           "a b [s1] x [e1] c" "[s2] y [e2] d e f").
  vm_compute. reflexivity.
Defined.

(** X5. One [pop] on words with two tags at the indices [t1 < t2] keeps both
    tag words unless the second tag is the last word and at most one word
    stands before the first tag; in that case it is the second tag that is
    popped, also when a word before the first tag could have gone. *)
Theorem pop_keeps_tags_unless_second_tag_last (SPEC_TAGS : list string)
    (w w' : list string) (t1 t2 : nat) :
  tag_indices SPEC_TAGS w = [t1; t2] ->
  pop_longer_side w t1 t2 = Ok w' ->
  (~ (t2 = length w - 1 /\ t1 <= 1) ->
     tag_words SPEC_TAGS w' = tag_words SPEC_TAGS w) /\
  (t2 = length w - 1 /\ t1 <= 1 ->
     exists x, w = w' ++ [x] /\ is_tag SPEC_TAGS x = true /\
               tag_words SPEC_TAGS w = tag_words SPEC_TAGS w' ++ [x]).
Proof.
  intros Ht Hp. destruct (two_tags_length SPEC_TAGS w t1 t2 Ht) as [Hlen Ht2].
  unfold pop_longer_side in Hp.
  destruct (Z.gtb_spec (Z.of_nat t1 - 0) (Z.of_nat (length w) - Z.of_nat t2))
    as [Hgt|Hle].
  - destruct w as [|x r]; [discriminate|]. injection Hp as <-.
    destruct (tag_indices_pop_first SPEC_TAGS x r t1 t2 Ht ltac:(lia))
      as (Hx & _).
    split; [|simpl in *; lia].
    intros _. unfold tag_words. simpl. now rewrite Hx.
  - assert (Hne : w <> []) by (intros ->; discriminate).
    rewrite (pop_last_ok w Hne) in Hp. injection Hp as <-.
    destruct (Nat.eq_dec t2 (length w - 1)) as [Heq|Hneq].
    + split; [intros Hn; exfalso; apply Hn; lia|]. intros _.
      destruct (removelast_snoc w Hne) as [x Hx]. exists x.
      remember (removelast w) as w' eqn:Ew'. clear Ew'. subst w.
      rewrite length_app in *. simpl in *.
      unfold tag_indices in Ht. rewrite tag_indices_from_app in Ht.
      rewrite tag_indices_from_cons in Ht. simpl in Ht.
      unfold tag_words. rewrite List.filter_app. simpl.
      destruct (is_tag SPEC_TAGS x); [auto|].
      exfalso. unfold tag_indices_from in Ht at 2. simpl in Ht.
      rewrite app_nil_r in Ht.
      pose proof (tag_indices_from_bound SPEC_TAGS 0 t2 w') as Hb.
      rewrite Ht in Hb. simpl in Hb. destruct Hb; [auto|lia].
    + split; [|intros [? _]; lia]. intros _.
      apply (tag_indices_pop_last SPEC_TAGS w t1 t2 Ht). lia.
Qed.

(** X5 on four words: one word before the first tag, the second tag last. *)
Lemma pop_keeps_tags_witness :
  exists x, ["x"; "[s1]"; "e"; "[e1]"] = ["x"; "[s1]"; "e"] ++ [x] /\
            is_tag tags4 x = true /\
            tag_words tags4 ["x"; "[s1]"; "e"; "[e1]"]
            = tag_words tags4 ["x"; "[s1]"; "e"] ++ [x].
Proof.
  apply (proj2 (pop_keeps_tags_unless_second_tag_last tags4
                  ["x"; "[s1]"; "e"; "[e1]"] ["x"; "[s1]"; "e"] 1 3
                  eq_refl eq_refl)).
  simpl. lia.
Defined.

End TruncationFacts.

(** ** Building the examples: [_create_examples] of both processors *)

Module Examples.
Import Text Truncation.

(** [InputExample]. *)
Record InputExample : Type := {
  guid : string;
  text_a : string;
  text_b : option string;
  label : option string
}.

(** [line[i]]. *)
Definition item (line : list string) (i : nat) : result string :=
  match line !! i with
  | Some x => Ok x
  | None => Raise IndexError
  end.

(** ["%s-%s" % (set_type, i)]. *)
Definition make_guid (set_type : string) (i : nat) : string :=
  (set_type ++ "-" ++ pretty i)%string.

(** [for (i, line) in enumerate(lines)] from index [i], as both processors
    write it: row 0 is skipped, every other row gives one example, made by
    [row]; the first row that raises ends the loop. [None] is a truncation
    loop that used up its bound, which does not happen
    ([create_examples_loop_ends]). *)
Fixpoint create_examples_loop
    (row : nat -> list string -> option (result InputExample))
    (i : nat) (lines : list (list string)) (examples : list InputExample)
  : option (result (list InputExample)) :=
  match lines with
  | [] => Some (Ok examples)
  | line :: rest =>
      if i =? 0 then create_examples_loop row (S i) rest examples
      else match row i line with
           | None => None
           | Some (Raise e) => Some (Raise e)
           | Some (Ok example) =>
               create_examples_loop row (S i) rest (examples ++ [example])
           end
  end.

Section Processor.

Context {token : Type}.
Variable tokenize : string -> list token.
Variable SPEC_TAGS : list string.
Variable max_seq_len : Z.

(** The body of the loop of [RelationDataFormatSepProcessor]. *)
Definition Sep_row (set_type : string) (i : nat) (line : list string)
  : option (result InputExample) :=
  let guid_ := make_guid set_type i in
  match (a ← item line 1; b ← item line 2; l ← item line 0; Ok (a, b, l)) with
  | Raise e => Some (Raise e)
  | Ok (a, b, l) =>
      match Sep_process_seq_len tokenize SPEC_TAGS max_seq_len a b with
      | None => None
      | Some (Raise e) => Some (Raise e)
      | Some (Ok (a', b')) =>
          Some (Ok {| guid := guid_; text_a := a'; text_b := Some b';
                      label := Some l |})
      end
  end.

(** The body of the loop of [RelationDataFormatUniProcessor]: the two
    sentences are joined into one text before the truncation. *)
Definition Uni_row (set_type : string) (i : nat) (line : list string)
  : option (result InputExample) :=
  let guid_ := make_guid set_type i in
  match (a ← item line 1; a1 ← item line 2; l ← item line 0;
         Ok (join [a; a1], l)) with
  | Raise e => Some (Raise e)
  | Ok (a, l) =>
      match Uni_process_seq_len tokenize SPEC_TAGS max_seq_len a with
      | None => None
      | Some (Raise e) => Some (Raise e)
      | Some (Ok a') =>
          Some (Ok {| guid := guid_; text_a := a'; text_b := None;
                      label := Some l |})
      end
  end.

(** [RelationDataFormatSepProcessor._create_examples]. *)
Definition Sep_create_examples (lines : list (list string))
    (set_type : string) : option (result (list InputExample)) :=
  create_examples_loop (Sep_row set_type) 0 lines [].

(** [RelationDataFormatUniProcessor._create_examples]. *)
Definition Uni_create_examples (lines : list (list string))
    (set_type : string) : option (result (list InputExample)) :=
  create_examples_loop (Uni_row set_type) 0 lines [].

End Processor.

Lemma enumerate_from_lookup {A : Type} (i k : nat) (l : list A) (x : A) :
  l !! k = Some x -> enumerate_from i l !! k = Some (i + k, x).
Proof.
  revert i k. induction l as [|y l IH]; intros i k; [discriminate|].
  destruct k as [|k]; simpl.
  - intros [= ->]. now rewrite Nat.add_0_r.
  - intros H. rewrite (IH (S i) k H). f_equal. f_equal. lia.
Qed.

(** From a row index other than 0, a loop that returns has made one
    example of every row, in order. *)
Lemma create_examples_loop_Ok
    (row : nat -> list string -> option (result InputExample))
    (i : nat) (lines : list (list string)) (acc exs : list InputExample) :
  i <> 0 ->
  create_examples_loop row i lines acc = Some (Ok exs) ->
  exists new,
    exs = acc ++ new /\ length new = length lines /\
    forall k line, lines !! k = Some line ->
      exists ex, new !! k = Some ex /\ row (i + k) line = Some (Ok ex).
Proof.
  revert i acc. induction lines as [|line rest IH]; intros i acc Hi; simpl.
  - intros [= <-]. exists []. rewrite app_nil_r. repeat split; auto.
    intros k line Hk. discriminate.
  - apply Nat.eqb_neq in Hi. rewrite Hi.
    destruct (row i line) as [[ex|e]|] eqn:E; try discriminate.
    intros H. destruct (IH (S i) _ ltac:(lia) H) as (new & -> & Hlen & Hrows).
    exists (ex :: new). rewrite <- app_assoc. simpl. repeat split; auto.
    intros [|k] line' Hk; simpl in *.
    + injection Hk as <-. exists ex. rewrite Nat.add_0_r. auto.
    + destruct (Hrows k line' Hk) as (ex' & Hn & Hr). exists ex'.
      split; [assumption|]. now rewrite <- Nat.add_succ_comm.
Qed.

(** The loop ends when its rows do. *)
Lemma create_examples_loop_ends
    (row : nat -> list string -> option (result InputExample))
    (i : nat) (lines : list (list string)) (acc : list InputExample) :
  (forall j line, exists r, row j line = Some r) ->
  exists r, create_examples_loop row i lines acc = Some r.
Proof.
  intros Hrow. revert i acc.
  induction lines as [|line rest IH]; intros i acc; simpl; [eauto|].
  destruct (i =? 0); [apply IH|].
  destruct (Hrow i line) as [[ex|e] ->]; [apply IH|eauto].
Qed.

Lemma Sep_row_ends {token : Type} (tokenize : string -> list token)
    (SPEC_TAGS : list string) (max_seq_len : Z) (set_type : string)
    (j : nat) (line : list string) :
  exists r, Sep_row tokenize SPEC_TAGS max_seq_len set_type j line = Some r.
Proof.
  unfold Sep_row.
  destruct (item line 1) as [a|e]; simpl; [|eauto].
  destruct (item line 2) as [b|e]; simpl; [|eauto].
  destruct (item line 0) as [l|e]; simpl; [|eauto].
  unfold Sep_process_seq_len.
  destruct (Sep_while_enough tokenize SPEC_TAGS max_seq_len
              (length (split (re_sub a))) (re_sub a) (re_sub b))
    as [[[a' b']|e] ->]; eauto.
Qed.

Lemma Uni_row_ends {token : Type} (tokenize : string -> list token)
    (SPEC_TAGS : list string) (max_seq_len : Z) (set_type : string)
    (j : nat) (line : list string) :
  exists r, Uni_row tokenize SPEC_TAGS max_seq_len set_type j line = Some r.
Proof.
  unfold Uni_row.
  destruct (item line 1) as [a|e]; simpl; [|eauto].
  destruct (item line 2) as [b|e]; simpl; [|eauto].
  destruct (item line 0) as [l|e]; simpl; [|eauto].
  unfold Uni_process_seq_len.
  match goal with
  | |- context [Uni_while _ _ _ (length (split ?t)) ?t] =>
      destruct (Uni_while_enough tokenize SPEC_TAGS max_seq_len
                  (length (split t)) t) as [[a'|e] ->]; eauto
  end.
Qed.

Lemma Sep_row_Ok {token : Type} (tokenize : string -> list token)
    (SPEC_TAGS : list string) (max_seq_len : Z) (set_type : string)
    (i : nat) (line : list string) (ex : InputExample) :
  Sep_row tokenize SPEC_TAGS max_seq_len set_type i line = Some (Ok ex) ->
  exists l a b rest a' b',
    line = l :: a :: b :: rest /\
    Sep_process_seq_len tokenize SPEC_TAGS max_seq_len a b
    = Some (Ok (a', b')) /\
    ex = {| guid := make_guid set_type i; text_a := a'; text_b := Some b';
            label := Some l |}.
Proof.
  unfold Sep_row, item.
  destruct line as [|l [|a [|b rest]]]; simpl; try discriminate.
  destruct (Sep_process_seq_len tokenize SPEC_TAGS max_seq_len a b)
    as [[[a' b']|e]|] eqn:E; try discriminate.
  intros [= <-]. now exists l, a, b, rest, a', b'.
Qed.

Lemma create_examples_top
    (row : nat -> list string -> option (result InputExample))
    (lines : list (list string)) (exs : list InputExample) :
  create_examples_loop row 0 lines [] = Some (Ok exs) ->
  length exs = length (tail lines) /\
  forall k line, tail lines !! k = Some line ->
    exists ex, exs !! k = Some ex /\ row (S k) line = Some (Ok ex).
Proof.
  destruct lines as [|header rows]; simpl.
  - intros [= <-]. split; [reflexivity|]. intros k line Hk. discriminate.
  - intros H.
    destruct (create_examples_loop_Ok row 1 rows [] exs ltac:(lia) H)
      as (new & -> & Hlen & Hrows).
    split; [exact Hlen|]. intros k line Hk. now apply Hrows.
Qed.

(** Splitting two joined texts gives the words of both. *)
Lemma split_join_pair (a b : string) : split (join [a; b]) = split a ++ split b.
Proof.
  change (join [a; b]) with (a ++ String " " b)%string.
  induction a as [|c a IH]; simpl; [reflexivity|].
  destruct (Ascii.eqb c " "); [now rewrite IH|].
  rewrite IH. pose proof (split_not_nil a) as Hne.
  destruct (split a); [congruence|reflexivity].
Qed.

Lemma tag_count_join_pair (SPEC_TAGS : list string) (a b : string) :
  tag_count SPEC_TAGS (join [a; b])
  = tag_count SPEC_TAGS a + tag_count SPEC_TAGS b.
Proof.
  unfold tag_count, tag_words.
  now rewrite split_join_pair, List.filter_app, length_app.
Qed.

(** X6. [_create_examples] of the Sep processor always ends, and when it
    returns it has made exactly one example of every row after the header,
    in the order of the rows: every such row has at least three columns,
    and the example of row [i] (the header is row 0) has the guid
    ["<set_type>-<i>"], the label of column 0 and the two texts that
    [_process_seq_len] returns for columns 1 and 2. *)
Theorem Sep_create_examples_rows {token : Type}
    (tokenize : string -> list token) (SPEC_TAGS : list string)
    (max_seq_len : Z) (lines : list (list string)) (set_type : string) :
  (exists r, Sep_create_examples tokenize SPEC_TAGS max_seq_len lines set_type
             = Some r) /\
  (forall exs,
      Sep_create_examples tokenize SPEC_TAGS max_seq_len lines set_type
      = Some (Ok exs) ->
      length exs = length (tail lines) /\
      forall k line, tail lines !! k = Some line ->
        exists l a b rest a' b',
          line = l :: a :: b :: rest /\
          Sep_process_seq_len tokenize SPEC_TAGS max_seq_len a b
          = Some (Ok (a', b')) /\
          exs !! k
          = Some {| guid := make_guid set_type (S k); text_a := a';
                    text_b := Some b'; label := Some l |}).
Proof.
  split.
  - apply create_examples_loop_ends. intros j line. apply Sep_row_ends.
  - intros exs H. apply create_examples_top in H as [Hlen Hrows].
    split; [exact Hlen|]. intros k line Hk.
    destruct (Hrows k line Hk) as (ex & Hex & Hrow).
    apply Sep_row_Ok in Hrow as (l & a & b & rest & a' & b' & -> & Hp & ->).
    exists l, a, b, rest, a', b'. auto.
Qed.

(** X6 on a file with a header and two rows. *)
Lemma Sep_create_examples_witness :
  length [ {| guid := "train-1"; text_a := "[s1] x [e1]";
              text_b := Some "[s2] y [e2]"; label := Some "yes" |};
           {| guid := "train-2"; text_a := "[s1] u [e1]";
              text_b := Some "[s2] v [e2]"; label := Some "no" |} ]
  = length (tail [["label"; "s1"; "s2"];
                  ["yes"; "[s1] x [e1]"; "[s2] y [e2]"];
                  ["no"; "[s1] u [e1]"; "[s2] v [e2]"]]).
Proof.
  apply (proj2 (Sep_create_examples_rows word_tokenize tags4 128
                  [["label"; "s1"; "s2"];
                   ["yes"; "[s1] x [e1]"; "[s2] y [e2]"];
                   ["no"; "[s1] u [e1]"; "[s2] v [e2]"]] "train")).
  vm_compute. reflexivity.
Defined.

(** X7. The Uni processor joins the two sentences of a row into one text
    before it truncates, so this text has the tag words of both. If the two
    sentences of some row after the header hold a number of tag words other
    than two between them (two each, say), the joined text holds no marker
    and is too long, then [_create_examples] returns no examples: the row
    raises [ValueError], unless an earlier row has raised already. *)
Theorem Uni_create_examples_raises_on_tagged_pair {token : Type}
    (tokenize : string -> list token) (SPEC_TAGS : list string)
    (max_seq_len : Z) (lines : list (list string)) (set_type : string)
    (k : nat) (l a b : string) (rest : list string) :
  tail lines !! k = Some (l :: a :: b :: rest) ->
  tag_count SPEC_TAGS a + tag_count SPEC_TAGS b <> 2 ->
  contains_marker (join [a; b]) = false ->
  Uni_too_long tokenize max_seq_len (join [a; b]) = true ->
  Uni_row tokenize SPEC_TAGS max_seq_len set_type (S k) (l :: a :: b :: rest)
  = Some (Raise ValueError) /\
  forall exs,
    Uni_create_examples tokenize SPEC_TAGS max_seq_len lines set_type
    <> Some (Ok exs).
Proof.
  intros Hk Htags Hmark Hlong.
  assert (Hrow : Uni_row tokenize SPEC_TAGS max_seq_len set_type (S k)
                   (l :: a :: b :: rest) = Some (Raise ValueError)).
  { unfold Uni_row, item. simpl.
    change (a ++ String " " b)%string with (join [a; b]).
    rewrite TruncationFacts.Uni_process_raises; [reflexivity| |].
    - rewrite (re_sub_no_marker _ Hmark), tag_count_join_pair. exact Htags.
    - rewrite (re_sub_no_marker _ Hmark). exact Hlong. }
  split; [exact Hrow|]. intros exs H.
  apply create_examples_top in H as [_ Hrows].
  destruct (Hrows k _ Hk) as (ex & _ & Hex). congruence.
Qed.

(** X7 on one row with two tag words in each sentence. *)
Lemma Uni_create_examples_witness :
  Uni_row word_tokenize tags4 5 "train" 1
    ["yes"; "[s1] fever [e1] today"; "[s2] aspirin [e2] daily"]
  = Some (Raise ValueError) /\
  forall exs,
    Uni_create_examples word_tokenize tags4 5
      [["label"; "s1"; "s2"];
       ["yes"; "[s1] fever [e1] today"; "[s2] aspirin [e2] daily"]] "train"
    <> Some (Ok exs).
Proof.
  apply (Uni_create_examples_raises_on_tagged_pair word_tokenize tags4 5
           [["label"; "s1"; "s2"];
            ["yes"; "[s1] fever [e1] today"; "[s2] aspirin [e2] daily"]]
           "train" 0 "yes" "[s1] fever [e1] today" "[s2] aspirin [e2] daily" []).
  - reflexivity.
  - vm_compute. discriminate.
  - vm_compute. reflexivity.
  - vm_compute. reflexivity.
Defined.

End Examples.

(** ** More on training: how many updates, and which amp *)

Module TrainingFacts.
Import Training.

(** [t_total] of [_init_optimizer]:
    [len(self.train_data_loader) // gradient_accumulation_steps
     * num_train_epochs]. *)
Definition t_total (batch_total_step : nat)
    (gradient_accumulation_steps num_train_epochs : Z) : result Z :=
  if (gradient_accumulation_steps =? 0)%Z then Raise ZeroDivisionError
  else Ok (Z.of_nat batch_total_step / gradient_accumulation_steps
           * num_train_epochs)%Z.

(** The test [(step + 1) % k == 0 or (step + 1) == batch_total_step]. *)
Definition due (k : Z) (batch_total_step step : nat) : bool :=
  ((Z.of_nat step + 1) mod k =? 0)%Z || (step + 1 =? batch_total_step).

(** Number of scheduler steps in a trace. *)
Fixpoint scheduler_steps (t : list event) : nat :=
  match t with
  | [] => 0
  | SchedulerStep :: t' => S (scheduler_steps t')
  | _ :: t' => scheduler_steps t'
  end.

(** The test of [_init_optimizer] that guards [self.amp.initialize]:
    [self.args.fp16 and self._use_amp_for_fp16_from == 2]. *)
Definition wraps_with_apex (r : runner) : bool :=
  fp16 r && (use_amp_for_fp16_from r =? 2)%Z.

(** A runner for which the apex branches of [train] are dead. *)
Definition no_apex (r : runner) : Prop :=
  fp16 r = true -> use_amp_for_fp16_from r <> 2%Z.

Lemma scheduler_steps_app (t1 t2 : list event) :
  scheduler_steps (t1 ++ t2) = scheduler_steps t1 + scheduler_steps t2.
Proof.
  induction t1 as [|e t1 IH]; [reflexivity|].
  destruct e; simpl; now rewrite IH.
Qed.

Lemma backward_kinds_app (t1 t2 : list event) :
  backward_kinds (t1 ++ t2) = backward_kinds t1 ++ backward_kinds t2.
Proof.
  induction t1 as [|e t1 IH]; [reflexivity|].
  destruct e; simpl; now rewrite IH.
Qed.

Lemma div_succ (n k : Z) :
  (0 <= n)%Z -> (0 < k)%Z ->
  ((n + 1) / k = n / k + (if (n + 1) mod k =? 0 then 1 else 0))%Z.
Proof.
  intros Hn Hk. destruct (Z.eqb_spec ((n + 1) mod k) 0) as [E|E];
    Z.div_mod_to_equations; nia.
Qed.

(** Among the steps [0 .. m-1], those with [(step + 1) % k == 0]. *)
Lemma multiples_count (k : Z) (m : nat) :
  (0 < k)%Z ->
  Z.of_nat (length (List.filter
                      (fun step => ((Z.of_nat step + 1) mod k =? 0)%Z)
                      (seq 0 m)))
  = (Z.of_nat m / k)%Z.
Proof.
  intros Hk. induction m as [|m IH]; [reflexivity|].
  rewrite seq_S, List.filter_app, length_app, Nat2Z.inj_add, IH. simpl.
  rewrite Nat2Z.inj_succ, <- Z.add_1_r, (div_succ (Z.of_nat m) k) by lia.
  destruct ((Z.of_nat m + 1) mod k =? 0)%Z; simpl; lia.
Qed.

(** The batches of one epoch that end in an update: one per full group of
    [k] batches, and the last batch. *)
Lemma due_count (k : Z) (n : nat) :
  (0 < k)%Z ->
  Z.of_nat (length (List.filter (due k n) (seq 0 n)))
  = ((Z.of_nat n + k - 1) / k)%Z.
Proof.
  intros Hk. destruct n as [|m].
  - simpl. symmetry. apply Z.div_small. lia.
  - rewrite seq_S, List.filter_app, length_app, Nat2Z.inj_add. simpl.
    rewrite (filter_ext_in (due k (S m))
               (fun step => ((Z.of_nat step + 1) mod k =? 0)%Z)).
    + rewrite (multiples_count k m Hk). unfold due.
      replace (m + 1 =? S m) with true by (symmetry; apply Nat.eqb_eq; lia).
      rewrite orb_true_r. simpl.
      replace (Z.of_nat (S m) + k - 1)%Z with (Z.of_nat m + 1 * k)%Z by lia.
      rewrite Z.div_add by lia. lia.
    + intros a Ha. apply in_seq in Ha. unfold due.
      replace (a + 1 =? S m) with false
        by (symmetry; apply Nat.eqb_neq; lia).
      apply orb_false_r.
Qed.

Section Plain.

Variable r : runner.
Variable k : Z.
Variable do_warmup : bool.
Variable n : nat.
Hypothesis plain : fp16 r = false.
Hypothesis k_pos : (0 < k)%Z.

Lemma train_batch_counts (epoch step : nat) (st : train_state) :
  exists st',
    train_batch r k do_warmup n epoch step st = Ok st' /\
    length (optimizer_grads (trace st'))
    = length (optimizer_grads (trace st))
      + (if due k n step then 1 else 0) /\
    scheduler_steps (trace st')
    = scheduler_steps (trace st)
      + (if due k n step && do_warmup then 1 else 0).
Proof.
  unfold train_batch, py_mod.
  assert (Hk : (k =? 0)%Z = false) by (apply Z.eqb_neq; lia).
  rewrite plain, Hk. simpl. fold (due k n step).
  destruct (due k n step), do_warmup; eexists; (split; [reflexivity|]);
    simpl; rewrite ?optimizer_grads_app, ?scheduler_steps_app, ?length_app;
    simpl; rewrite ?optimizer_grads_app, ?scheduler_steps_app, ?length_app;
    simpl; split; lia.
Qed.

Lemma train_batches_counts (epoch step m : nat) (st : train_state) :
  exists st',
    train_batches r k do_warmup n epoch step m st = Ok st' /\
    length (optimizer_grads (trace st'))
    = length (optimizer_grads (trace st))
      + length (List.filter (due k n) (seq step m)) /\
    scheduler_steps (trace st')
    = scheduler_steps (trace st)
      + (if do_warmup then length (List.filter (due k n) (seq step m))
         else 0).
Proof.
  revert step st. induction m as [|m IH]; intros step st; simpl.
  - exists st. repeat split; auto. destruct do_warmup; lia.
  - destruct (train_batch_counts epoch step st) as (st1 & -> & Ho & Hs).
    simpl. destruct (IH (S step) st1) as (st' & -> & Ho' & Hs').
    exists st'. split; [reflexivity|].
    destruct (due k n step), do_warmup; simpl in *; split; lia.
Qed.

Lemma train_epochs_counts (epoch m : nat) (st : train_state) :
  exists st',
    train_epochs r k do_warmup n epoch m st = Ok st' /\
    length (optimizer_grads (trace st'))
    = length (optimizer_grads (trace st))
      + m * length (List.filter (due k n) (seq 0 n)) /\
    scheduler_steps (trace st')
    = scheduler_steps (trace st)
      + (if do_warmup then m * length (List.filter (due k n) (seq 0 n))
         else 0).
Proof.
  revert epoch st. induction m as [|m IH]; intros epoch st; simpl.
  - exists st. repeat split; auto. destruct do_warmup; lia.
  - destruct (train_batches_counts epoch 0 n st) as (st1 & -> & Ho & Hs).
    simpl. destruct (IH (S epoch) st1) as (st' & -> & Ho' & Hs').
    exists st'. split; [reflexivity|].
    destruct do_warmup; split; lia.
Qed.

End Plain.

Lemma init_amp_no_apex (v : version) (apex_importable : bool) (r0 : runner) :
  no_apex (init_amp v apex_importable r0).
Proof.
  unfold no_apex, init_amp, _load_amp_for_fp16.
  destruct (fp16 r0) eqn:E0; [|congruence].
  destruct (version_ge v (1, 6, 0)); simpl; [discriminate|].
  destruct apex_importable; discriminate.
Qed.

Lemma train_batch_no_apex (r : runner) (k : Z) (w : bool)
    (n epoch step : nat) (st st' : train_state) :
  no_apex r ->
  train_batch r k w n epoch step st = Ok st' ->
  Forall (fun b => b <> apex_scaled_backward) (backward_kinds (trace st)) ->
  Forall (fun b => b <> apex_scaled_backward) (backward_kinds (trace st')).
Proof.
  unfold no_apex, train_batch, py_mod. intros Hr.
  destruct (k =? 0)%Z; [discriminate|]. simpl.
  destruct (fp16 r) eqn:Ef.
  - specialize (Hr eq_refl). apply Z.eqb_neq in Hr. rewrite Hr.
    destruct (use_amp_for_fp16_from r =? 1)%Z,
      (((Z.of_nat step + 1) mod k =? 0)%Z || (step + 1 =? n)), w;
      intros [= <-] HF; simpl;
      repeat (rewrite backward_kinds_app; simpl);
      rewrite ?app_nil_r;
      repeat (apply Forall_app; split); auto;
      repeat constructor; discriminate.
  - destruct (((Z.of_nat step + 1) mod k =? 0)%Z || (step + 1 =? n)), w;
      intros [= <-] HF; simpl;
      repeat (rewrite backward_kinds_app; simpl);
      rewrite ?app_nil_r;
      repeat (apply Forall_app; split); auto;
      repeat constructor; discriminate.
Qed.

Lemma train_batches_no_apex (r : runner) (k : Z) (w : bool)
    (n epoch step m : nat) (st st' : train_state) :
  no_apex r ->
  train_batches r k w n epoch step m st = Ok st' ->
  Forall (fun b => b <> apex_scaled_backward) (backward_kinds (trace st)) ->
  Forall (fun b => b <> apex_scaled_backward) (backward_kinds (trace st')).
Proof.
  intros Hr. revert step st. induction m as [|m IH]; intros step st; simpl.
  - now intros [= <-].
  - destruct (train_batch r k w n epoch step st) as [st1|e] eqn:E; simpl;
      [|discriminate].
    intros H HF. eapply IH; [exact H|]. eapply train_batch_no_apex; eauto.
Qed.

Lemma train_epochs_no_apex (r : runner) (k : Z) (w : bool)
    (n epoch m : nat) (st st' : train_state) :
  no_apex r ->
  train_epochs r k w n epoch m st = Ok st' ->
  Forall (fun b => b <> apex_scaled_backward) (backward_kinds (trace st)) ->
  Forall (fun b => b <> apex_scaled_backward) (backward_kinds (trace st')).
Proof.
  intros Hr. revert epoch st. induction m as [|m IH]; intros epoch st; simpl.
  - now intros [= <-].
  - destruct (train_batches r k w n epoch 0 n st) as [st1|e] eqn:E; simpl;
      [|discriminate].
    intros H HF. eapply IH; [exact H|]. eapply train_batches_no_apex; eauto.
Qed.

(** X8. Without fp16 and with a positive [gradient_accumulation_steps] [k],
    [train] ends and updates the parameters once per full group of [k]
    batches and once more at the last batch of an epoch: the integer part
    of [(n + k - 1) / k] times per epoch over [n] batches. With [do_warmup]
    the scheduler is stepped as often. [t_total] of [_init_optimizer], the
    number of steps the schedule is built for, counts [n // k] per epoch:
    it is never more than the number of updates, and it is less whenever
    [k] does not divide [n]. *)
Theorem train_update_count (r : runner) (k : Z) (do_warmup : bool)
    (n : nat) (num_train_epochs : Z) :
  fp16 r = false -> (0 < k)%Z -> (0 <= num_train_epochs)%Z ->
  exists st t,
    train r k do_warmup n num_train_epochs = Ok st /\
    t_total n k num_train_epochs = Ok t /\
    Z.of_nat (length (optimizer_grads (trace st)))
    = (num_train_epochs * ((Z.of_nat n + k - 1) / k))%Z /\
    Z.of_nat (scheduler_steps (trace st))
    = (if do_warmup then num_train_epochs * ((Z.of_nat n + k - 1) / k)
       else 0)%Z /\
    (t <= num_train_epochs * ((Z.of_nat n + k - 1) / k))%Z /\
    (Z.of_nat n mod k <> 0 -> 0 < num_train_epochs ->
     t < num_train_epochs * ((Z.of_nat n + k - 1) / k))%Z.
Proof.
  intros Hplain Hk He. unfold train, t_total.
  destruct (train_epochs_counts r k do_warmup n Hplain Hk 0
              (Z.to_nat num_train_epochs) {| grad := []; trace := [] |})
    as (st & -> & Ho & Hs).
  assert (Hk0 : (k =? 0)%Z = false) by (apply Z.eqb_neq; lia).
  rewrite Hk0. simpl in *.
  eexists _, _. split; [reflexivity|]. split; [reflexivity|].
  simpl. rewrite optimizer_grads_app, scheduler_steps_app, length_app.
  simpl. rewrite !Nat.add_0_r, Ho.
  pose proof (due_count k n Hk) as Hd.
  assert (Hc : Z.of_nat (Z.to_nat num_train_epochs
                         * length (List.filter (due k n) (seq 0 n)))
               = (num_train_epochs * ((Z.of_nat n + k - 1) / k))%Z).
  { rewrite Nat2Z.inj_mul, Hd, Z2Nat.id by lia. reflexivity. }
  split; [exact Hc|]. split.
  - rewrite Hs. destruct do_warmup; [exact Hc|reflexivity].
  - assert (Z.of_nat n / k <= (Z.of_nat n + k - 1) / k)%Z
      by (apply Z.div_le_mono; lia).
    split; [nia|]. intros Hmod Hpos.
    assert ((Z.of_nat n + k - 1) / k = Z.of_nat n / k + 1)%Z
      by (Z.div_mod_to_equations; nia).
    nia.
Qed.

(** X8 at 5 batches, [k = 2], 3 epochs: 9 updates, [t_total = 6]. *)
Lemma train_update_count_witness :
  exists st t,
    train plain_runner 2 true 5 3 = Ok st /\
    t_total 5 2 3 = Ok t /\
    Z.of_nat (length (optimizer_grads (trace st))) = (3 * ((5 + 2 - 1) / 2))%Z
    /\ (t < 3 * ((5 + 2 - 1) / 2))%Z.
Proof.
  destruct (train_update_count plain_runner 2 true 5 3 eq_refl
              ltac:(lia) ltac:(lia)) as (st & t & E & Et & Ho & _ & _ & Hlt).
  exists st, t. repeat split; auto. apply Hlt; [discriminate|lia].
Defined.

(** X9. After the amp set-up of [__init__] the apex path is never taken:
    whatever the torch version, whether or not apex can be imported, the
    guard of [amp.initialize] in [_init_optimizer] is false and no batch of
    [train] runs apex's scaled [backward]. *)
Theorem apex_path_is_dead (v : version) (apex_importable : bool)
    (r0 : runner) :
  wraps_with_apex (init_amp v apex_importable r0) = false /\
  forall k do_warmup n num_train_epochs st,
    train (init_amp v apex_importable r0) k do_warmup n num_train_epochs
    = Ok st ->
    Forall (fun b => b <> apex_scaled_backward) (backward_kinds (trace st)).
Proof.
  pose proof (init_amp_no_apex v apex_importable r0) as Hr. split.
  - unfold wraps_with_apex. unfold no_apex in Hr.
    destruct (fp16 (init_amp v apex_importable r0)); [|reflexivity].
    simpl. apply Z.eqb_neq. now apply Hr.
  - intros k w n epochs st. unfold train.
    destruct (train_epochs (init_amp v apex_importable r0) k w n 0
                (Z.to_nat epochs) {| grad := []; trace := [] |})
      as [st1|e] eqn:E; simpl; [|discriminate].
    intros [= <-]. simpl. rewrite backward_kinds_app. simpl.
    rewrite app_nil_r.
    eapply train_epochs_no_apex; [exact Hr|exact E|constructor].
Qed.

(** X9 at torch 1.5.0 with apex: two batches, both with the plain
    [backward]. *)
Lemma apex_path_is_dead_witness :
  exists st,
    train (init_amp (1, 5, 0) true fp16_runner) 1 false 2 1 = Ok st /\
    Forall (fun b => b <> apex_scaled_backward) (backward_kinds (trace st)).
Proof.
  eexists. split; [vm_compute; reflexivity|].
  eapply (proj2 (apex_path_is_dead (1, 5, 0) true fp16_runner) 1%Z false 2 1%Z).
  vm_compute. reflexivity.
Defined.

End TrainingFacts.

(** ** The parameter groups of [_init_optimizer] *)

Module Optimizer.

(** [sub in s] on strings: [sub] occurs somewhere in [s]. *)
Fixpoint contains (sub s : string) : bool :=
  String.prefix sub s ||
  match s with
  | EmptyString => false
  | String _ s' => contains sub s'
  end.

Definition no_decay : list string := ["bias"; "LayerNorm.weight"].

(** [any(nd in n for nd in no_decay)]. *)
Definition any_no_decay (n : string) : bool :=
  existsb (fun nd => contains nd n) no_decay.

Record param_group (P : Type) : Type := {
  params : list P;
  weight_decay : Q
}.

Arguments params {P} _.
Arguments weight_decay {P} _.

(** [optimizer_grouped_parameters], from [self.model.named_parameters()]
    and [self.args.weight_decay]. *)
Definition optimizer_grouped_parameters {P : Type}
    (named_parameters : list (string * P)) (args_weight_decay : Q)
  : list (param_group P) :=
  [ {| params := map snd (List.filter (fun np => negb (any_no_decay (fst np)))
                            named_parameters);
       weight_decay := args_weight_decay |};
    {| params := map snd (List.filter (fun np => any_no_decay (fst np))
                            named_parameters);
       weight_decay := 0%Q |} ].

Lemma filter_split_Permutation {A : Type} (f : A -> bool) (l : list A) :
  List.filter (fun x => negb (f x)) l ++ List.filter f l ≡ₚ l.
Proof.
  induction l as [|x l IH]; [reflexivity|]. simpl.
  destruct (f x); simpl.
  - rewrite <- Permutation_middle. now constructor.
  - now constructor.
Qed.

(** X10. The two parameter groups of [_init_optimizer] split the named
    parameters of the model: every parameter is in exactly one group, in
    the second one, whose weight decay is 0, exactly when its name holds
    ["bias"] or ["LayerNorm.weight"], and in the first one, with the
    configured weight decay, otherwise. *)
Theorem parameter_groups_split {P : Type}
    (named_parameters : list (string * P)) (args_weight_decay : Q) :
  exists decayed plain,
    optimizer_grouped_parameters named_parameters args_weight_decay
    = [ {| params := decayed; weight_decay := args_weight_decay |};
        {| params := plain; weight_decay := 0%Q |} ] /\
    decayed ++ plain ≡ₚ map snd named_parameters /\
    length decayed + length plain = length named_parameters /\
    (forall n p, (n, p) ∈ named_parameters ->
       (contains "bias" n = true \/ contains "LayerNorm.weight" n = true) ->
       p ∈ plain) /\
    (forall n p, (n, p) ∈ named_parameters ->
       contains "bias" n = false -> contains "LayerNorm.weight" n = false ->
       p ∈ decayed).
Proof.
  eexists _, _. split; [reflexivity|].
  assert (HP : map snd (List.filter (fun np => negb (any_no_decay (fst np)))
                          named_parameters)
               ++ map snd (List.filter (fun np => any_no_decay (fst np))
                             named_parameters)
               ≡ₚ map snd named_parameters).
  { rewrite <- map_app. apply Permutation_map.
    apply (filter_split_Permutation (fun np => any_no_decay (fst np))). }
  split; [exact HP|]. split.
  - apply Permutation_length in HP.
    rewrite length_app, !length_map in *. exact HP.
  - split.
    + intros n p Hin Hname. apply list_elem_of_In, in_map_iff.
      exists (n, p). split; [reflexivity|]. apply filter_In.
      split; [now apply list_elem_of_In|].
      unfold any_no_decay, no_decay. simpl.
      destruct Hname as [-> | ->]; [reflexivity|apply orb_true_r].
    + intros n p Hin Hb Hl. apply list_elem_of_In, in_map_iff.
      exists (n, p). split; [reflexivity|]. apply filter_In.
      split; [now apply list_elem_of_In|].
      unfold any_no_decay, no_decay. simpl. now rewrite Hb, Hl.
Qed.

Example parameter_groups_ex :
  optimizer_grouped_parameters
    [("encoder.layer.0.output.dense.weight", 1);
     ("encoder.layer.0.output.dense.bias", 2);
     ("encoder.layer.0.output.LayerNorm.weight", 3);
     ("classifier.weight", 4)] (1 # 100)
  = [ {| params := [1; 4]; weight_decay := 1 # 100 |};
      {| params := [2; 3]; weight_decay := 0 |} ].
Proof. reflexivity. Qed.

End Optimizer.

(** ** More on [features2tensors] *)

Module LoaderFacts.
Import Loader.

(** The indices that [logger.info] was called with, in order. *)
Fixpoint logged (cs : list call) : list nat :=
  match cs with
  | [] => []
  | LoggerInfo idx :: cs' => idx :: logged cs'
  | _ :: cs' => logged cs'
  end.

Lemma logged_app (c1 c2 : list call) : logged (c1 ++ c2) = logged c1 ++ logged c2.
Proof.
  induction c1 as [|c c1 IH]; [reflexivity|].
  destruct c; simpl; now rewrite IH.
Qed.

(** The indices below 3 among [idx, idx + 1, ..., idx + n - 1]. *)
Fixpoint first_three_from (idx n : nat) : list nat :=
  match n with
  | O => []
  | S n' => if idx <? 3 then idx :: first_three_from (S idx) n'
            else first_three_from (S idx) n'
  end.

Lemma first_three_from_ge (idx n : nat) :
  3 <= idx -> first_three_from idx n = [].
Proof.
  revert idx. induction n as [|n IH]; intros idx H; [reflexivity|]. simpl.
  destruct (Nat.ltb_spec idx 3); [lia|]. apply IH. lia.
Qed.

Lemma first_three_from_0 (n : nat) : first_three_from 0 n = seq 0 (min 3 n).
Proof.
  destruct n as [|[|[|n]]]; try reflexivity. simpl.
  now rewrite first_three_from_ge.
Qed.

(** What the loop of [features2tensors] builds: the columns of the features
    in order, the [token_type_ids] column without the features that have
    none, and a log entry for each of the first three features. *)
Lemma fill_columns_spec (logger : bool) (idx : nat)
    (features : list InputFeatures) (cols : columns) :
  outcome (fill_columns logger idx features cols)
  = Ok {| tensor_input_ids :=
            tensor_input_ids cols ++ map input_ids features;
          tensor_attention_masks :=
            tensor_attention_masks cols ++ map attention_mask features;
          tensor_token_type_ids :=
            tensor_token_type_ids cols
            ++ omap (fun f => truthy (token_type_ids f)) features;
          tensor_label_ids := tensor_label_ids cols ++ map label features |}
  /\ calls (fill_columns logger idx features cols)
     = map LoggerInfo (if logger then first_three_from idx (length features)
                       else []).
Proof.
  revert idx cols. induction features as [|f rest IH]; intros idx cols.
  - simpl. rewrite !app_nil_r. destruct cols, logger; auto.
  - simpl. unfold mbind, io_bind.
    destruct logger; simpl.
    + destruct (idx <? 3); simpl;
        match goal with
        | |- context [fill_columns true (S idx) rest ?c] =>
            destruct (IH (S idx) c) as [Ho Hc]
        end; rewrite Ho, Hc; simpl; rewrite <- !app_assoc; simpl;
        (split; [|reflexivity]);
        destruct (truthy (token_type_ids f)); simpl;
        rewrite <- ?app_assoc; reflexivity.
    + match goal with
      | |- context [fill_columns false (S idx) rest ?c] =>
          destruct (IH (S idx) c) as [Ho Hc]
      end. rewrite Ho, Hc; simpl; rewrite <- !app_assoc; simpl.
      split; [|reflexivity].
      destruct (truthy (token_type_ids f)); simpl;
        rewrite <- ?app_assoc; reflexivity.
Qed.

Lemma logged_LoggerInfo (l : list nat) : logged (map LoggerInfo l) = l.
Proof. induction l as [|x l IH]; simpl; [reflexivity|now rewrite IH]. Qed.

Lemma omap_length_le {A B : Type} (f : A -> option B) (l : list A) :
  length (omap f l) <= length l.
Proof.
  induction l as [|x l IH]; [reflexivity|].
  change (omap f (x :: l))
    with (match f x with Some y => y :: omap f l | None => omap f l end).
  destruct (f x); cbn [length]; lia.
Qed.

(** X11. [features2tensors] hands torch the columns of the features in
    their order: [input_ids], [attention_mask] and [label] with one row per
    feature, and for [token_type_ids] only the rows of the features that
    have some (so this column can be shorter than the others); when no
    feature has any, zeros of the shape of the attention masks stand in.
    With a logger, the first three features are logged and no other. *)
Theorem features2tensors_columns {tensor dataset : Type}
    (torch_tensor : list (list Z) -> result tensor)
    (torch_tensor_1d : list Z -> result tensor)
    (torch_zeros_shape_of : tensor -> result tensor)
    (TensorDataset : tensor -> tensor -> tensor -> tensor -> result dataset)
    (features : list InputFeatures) (logger : bool) :
  let types_column := omap (fun f => truthy (token_type_ids f)) features in
  let run := features2tensors torch_tensor torch_tensor_1d
               torch_zeros_shape_of TensorDataset features logger in
  outcome run
  = (ids ← torch_tensor (map input_ids features);
     masks ← torch_tensor (map attention_mask features);
     labels ← torch_tensor_1d (map label features);
     types ← match types_column with
             | [] => torch_zeros_shape_of masks
             | _ :: _ => torch_tensor types_column
             end;
     TensorDataset ids masks types labels) /\
  logged (calls run)
  = (if logger then seq 0 (min 3 (length features)) else []) /\
  length types_column <= length features.
Proof.
  intros types_column run. unfold run, features2tensors.
  match goal with
  | |- context [fill_columns logger 0 features ?c] =>
      destruct (fill_columns_spec logger 0 features c) as [Ho Hc];
      destruct (fill_columns logger 0 features c) as [cs o]
  end.
  simpl in Ho, Hc. subst o cs. fold types_column.
  assert (Hlog : logged (map LoggerInfo
                           (if logger
                            then first_three_from 0 (length features)
                            else []))
                 = if logger then seq 0 (min 3 (length features)) else []).
  { rewrite logged_LoggerInfo. destruct logger; [|reflexivity].
    apply first_three_from_0. }
  split; [|split; [|apply omap_length_le]].
  - unfold mbind, io_bind, result_bind, calling. simpl.
    destruct (torch_tensor (map input_ids features)) as [ids|e]; simpl;
      [|reflexivity].
    destruct (torch_tensor (map attention_mask features)) as [masks|e]; simpl;
      [|reflexivity].
    destruct (torch_tensor_1d (map label features)) as [labels|e]; simpl;
      [|reflexivity].
    destruct types_column as [|t ts]; simpl.
    + destruct (torch_zeros_shape_of masks); reflexivity.
    + destruct (torch_tensor (t :: ts)); reflexivity.
  - unfold mbind, io_bind, calling. simpl.
    destruct (torch_tensor (map input_ids features)) as [ids|e]; simpl;
      [|rewrite ?logged_app, Hlog; simpl; now rewrite ?app_nil_r].
    destruct (torch_tensor (map attention_mask features)) as [masks|e]; simpl;
      [|rewrite ?logged_app, Hlog; simpl; now rewrite ?app_nil_r].
    destruct (torch_tensor_1d (map label features)) as [labels|e]; simpl;
      [|rewrite ?logged_app, Hlog; simpl; now rewrite ?app_nil_r].
    destruct types_column as [|t ts]; simpl.
    + destruct (torch_zeros_shape_of masks); simpl;
        rewrite ?logged_app, Hlog; simpl; now rewrite ?app_nil_r.
    + destruct (torch_tensor (t :: ts)); simpl;
        rewrite ?logged_app, Hlog; simpl; now rewrite ?app_nil_r.
Qed.

End LoaderFacts.

(** ** More on [_run_eval] *)

Module EvaluationFacts.
Import Evaluation.

(** The sum of the batch losses, as the loop adds them up. *)
Definition total_loss (outputs : list (Q * list (list Q))) : Q :=
  fold_left (fun acc out => (acc + fst out)%Q) outputs 0%Q.

(** All logits of all batches, row after row. *)
Definition all_logits (outputs : list (Q * list (list Q))) : list Q :=
  concat (concat (map snd outputs)).

(** [i] is the first position of a largest entry of [l]. *)
Definition first_max (l : list Q) (i : nat) : Prop :=
  exists x, l !! i = Some x /\
            forall j y, l !! j = Some y ->
                        (y <= x)%Q /\ (j < i -> (y < x)%Q).

Lemma fold_eval_batch (outputs : list (Q * list (list Q))) (tl : Q)
    (p : option (list (list Q))) :
  fold_left eval_batch outputs (tl, p)
  = (fold_left (fun acc out => (acc + fst out)%Q) outputs tl,
     match outputs with
     | [] => p
     | _ :: _ => Some (default [] p ++ concat (map snd outputs))
     end).
Proof.
  revert tl p. induction outputs as [|[loss logits] rest IH]; intros tl p;
    [reflexivity|].
  simpl. rewrite IH. f_equal.
  destruct rest as [|o rest]; destruct p as [q|]; simpl;
    rewrite ?app_nil_r, <- ?app_assoc; reflexivity.
Qed.

Lemma argmax_from_spec (l pre : list Q) (best_i : nat) (best : Q) :
  pre !! best_i = Some best ->
  (forall j y, pre !! j = Some y ->
               (y <= best)%Q /\ (j < best_i -> (y < best)%Q)) ->
  first_max (pre ++ l) (argmax_from best_i best (length pre) l).
Proof.
  revert pre best_i best.
  induction l as [|x l IH]; intros pre best_i best Hb Hmax.
  - simpl. rewrite app_nil_r. now exists best.
  - simpl. assert (Hlt : best_i < length pre)
      by (apply lookup_lt_is_Some; eauto).
    replace (pre ++ x :: l) with ((pre ++ [x]) ++ l)
      by (now rewrite <- app_assoc).
    replace (S (length pre)) with (length (pre ++ [x]))
      by (rewrite length_app; simpl; lia).
    destruct (Qcompare_spec best x) as [Heq|Hltq|Hgt].
    + apply IH.
      * now apply lookup_app_l_Some.
      * intros j y Hj. apply lookup_snoc_Some in Hj as [[Hjl Hj]|[-> <-]].
        -- now apply Hmax.
        -- split; [rewrite Heq; apply Qle_refl|lia].
    + apply IH.
      * apply lookup_snoc_Some. right. auto.
      * intros j y Hj. apply lookup_snoc_Some in Hj as [[Hjl Hj]|[-> <-]].
        -- destruct (Hmax j y Hj) as [Hle _].
           split; [apply Qlt_le_weak|intros _];
             eapply Qle_lt_trans; eauto.
        -- split; [apply Qle_refl|lia].
    + apply IH.
      * now apply lookup_app_l_Some.
      * intros j y Hj. apply lookup_snoc_Some in Hj as [[Hjl Hj]|[-> <-]].
        -- now apply Hmax.
        -- split; [now apply Qlt_le_weak|lia].
Qed.

Lemma fold_eval_batch_nonempty (outputs : list (Q * list (list Q))) :
  outputs <> [] ->
  fold_left eval_batch outputs (0%Q, None)
  = (total_loss outputs, Some (concat (map snd outputs))).
Proof.
  intros Hne. rewrite fold_eval_batch.
  destruct outputs; [congruence|reflexivity].
Qed.

(** X12. [_run_eval] on an empty data loader raises [ZeroDivisionError]
    (the loss is divided by the number of batches). On a loader with
    batches it returns the mean of the batch losses, and as [preds] the
    position, in the logits of all batches laid out row after row, of the
    first largest logit. *)
Theorem run_eval_value (outputs : list (Q * list (list Q))) :
  (outputs = [] -> _run_eval outputs = Raise ZeroDivisionError) /\
  (outputs <> [] -> all_logits outputs = [] ->
   _run_eval outputs = Raise ValueError) /\
  (outputs <> [] -> all_logits outputs <> [] ->
   exists i,
     _run_eval outputs
     = Ok (np_int64 i,
           (total_loss outputs / inject_Z (Z.of_nat (length outputs)))%Q) /\
     first_max (all_logits outputs) i).
Proof.
  split; [intros ->; reflexivity|].
  assert (Hrun : outputs <> [] ->
            _run_eval outputs
            = (preds ← np_argmax (concat (map snd outputs));
               Ok (preds,
                   (total_loss outputs
                    / inject_Z (Z.of_nat (length outputs)))%Q))).
  { intros Hne. unfold _run_eval.
    rewrite (fold_eval_batch_nonempty outputs Hne).
    destruct outputs; [congruence|reflexivity]. }
  unfold all_logits, np_argmax in *.
  split; intros Hne Hflat; rewrite (Hrun Hne).
  - rewrite Hflat. reflexivity.
  - destruct (concat (concat (map snd outputs))) as [|x l]; [congruence|].
    simpl. eexists. split; [reflexivity|].
    apply (argmax_from_spec l [x] 0 x); [reflexivity|].
    intros [|j] y Hj; simpl in Hj; [|discriminate].
    injection Hj as <-. split; [apply Qle_refl|lia].
Qed.

(** X12 on the three examples of [three_examples]. *)
Lemma run_eval_value_witness :
  exists i,
    _run_eval three_examples
    = Ok (np_int64 i,
          (total_loss three_examples
           / inject_Z (Z.of_nat (length three_examples)))%Q) /\
    first_max (all_logits three_examples) i.
Proof.
  apply (proj2 (proj2 (run_eval_value three_examples))); discriminate.
Defined.

End EvaluationFacts.

(** ** [convert_examples_to_relation_extraction_features] of [data_utils.py] *)

Module Features.
Import Examples Loader.

Section Tokenizer.

(** The tokenizer is a black box with three methods; [encode_plus] gives
    the [input_ids], the [attention_mask] and, for some models, the
    [token_type_ids], or raises. *)
Context {token : Type}.
Variable tokenize : string -> list token.
Variable convert_tokens_to_ids : list token -> list Z.
Variable encode_plus :
  list Z -> option (list Z) -> Z ->
  result (list Z * list Z * option (list Z)).
Variable label2idx : gmap string nat.
Variable max_length : Z.

(** [label2idx[example.label]]. *)
Definition label_index (l : option string) : result nat :=
  match l with
  | Some l =>
      match label2idx !! l with
      | Some v => Ok v
      | None => Raise KeyError
      end
  | None => Raise KeyError
  end.

(** [example.text_a + " " + example.text_b], the text that the function
    prints for the first three examples: [str + None] raises. *)
Definition printed_text (example : InputExample) : result string :=
  match text_b example with
  | Some b => Ok (text_a example ++ " " ++ b)%string
  | None => Raise TypeError
  end.

(** The body of the loop. *)
Definition convert_example (idx : nat) (example : InputExample)
  : result InputFeatures :=
  let tokens_a := convert_tokens_to_ids (tokenize (text_a example)) in
  let tokens_b :=
    match text_b example with
    | Some (String _ _ as b) => Some (convert_tokens_to_ids (tokenize b))
    | _ => None
    end in
  '(ids, mask, types) ← encode_plus tokens_a tokens_b max_length;
  l ← label_index (Examples.label example);
  let feature := {| input_ids := ids; attention_mask := mask;
                    token_type_ids := types; label := Z.of_nat l |} in
  _ ← (if idx <? 3 then printed_text example else Ok EmptyString);
  Ok feature.

(** [for idx, example in enumerate(examples)] from index [idx]. *)
Fixpoint convert_from (idx : nat) (examples : list InputExample)
    (features : list InputFeatures) : result (list InputFeatures) :=
  match examples with
  | [] => Ok features
  | example :: rest =>
      feature ← convert_example idx example;
      convert_from (S idx) rest (features ++ [feature])
  end.

(** [convert_examples_to_relation_extraction_features]. *)
Definition convert_examples_to_relation_extraction_features
    (examples : list InputExample) : result (list InputFeatures) :=
  convert_from 0 examples [].

Lemma convert_example_Ok (idx : nat) (example : InputExample)
    (feature : InputFeatures) :
  convert_example idx example = Ok feature ->
  (exists l v, Examples.label example = Some l /\ label2idx !! l = Some v /\
               Loader.label feature = Z.of_nat v) /\
  (idx < 3 -> text_b example <> None).
Proof.
  unfold convert_example.
  destruct (encode_plus _ _ max_length) as [[[ids mask] types]|e]; simpl;
    [|discriminate].
  unfold label_index.
  destruct (Examples.label example) as [l|]; simpl; [|discriminate].
  destruct (label2idx !! l) as [v|] eqn:Ev; simpl; [|discriminate].
  destruct (Nat.ltb_spec idx 3) as [Hlt|Hge].
  - unfold printed_text. destruct (text_b example) as [b|]; simpl;
      [|discriminate].
    intros [= <-]. split; [now exists l, v|]. intros _. discriminate.
  - simpl. intros [= <-]. split; [now exists l, v|]. lia.
Qed.

Lemma convert_from_Ok (idx : nat) (examples : list InputExample)
    (acc features : list InputFeatures) :
  convert_from idx examples acc = Ok features ->
  exists new,
    features = acc ++ new /\ length new = length examples /\
    forall i example, examples !! i = Some example ->
      exists feature, new !! i = Some feature /\
                      convert_example (idx + i) example = Ok feature.
Proof.
  revert idx acc. induction examples as [|ex rest IH]; intros idx acc; simpl.
  - intros [= <-]. exists []. rewrite app_nil_r. repeat split; auto.
    intros i example Hi. discriminate.
  - destruct (convert_example idx ex) as [f|e] eqn:E; simpl; [|discriminate].
    intros H. destruct (IH (S idx) _ H) as (new & -> & Hlen & Hrows).
    exists (f :: new). rewrite <- app_assoc. simpl. repeat split; auto.
    intros [|i] example Hi; simpl in *.
    + injection Hi as <-. exists f. rewrite Nat.add_0_r. auto.
    + destruct (Hrows i example Hi) as (f' & Hn & Hr). exists f'.
      split; [assumption|]. now rewrite <- Nat.add_succ_comm.
Qed.

End Tokenizer.

(** X13. When [convert_examples_to_relation_extraction_features] returns,
    it has made one feature per example, in order, and the label of each
    feature is the index that [label2idx] holds for the label of its
    example. So it does not return when an example has no label or a label
    that [label2idx] does not hold ([KeyError]), nor when one of the first
    three examples has no [text_b] ([TypeError] where the text is printed),
    as every example of the Uni processor has. *)
Theorem convert_examples_features {token : Type}
    (tokenize : string -> list token)
    (convert_tokens_to_ids : list token -> list Z)
    (encode_plus : list Z -> option (list Z) -> Z ->
                   result (list Z * list Z * option (list Z)))
    (label2idx : gmap string nat) (max_length : Z)
    (examples : list InputExample) (features : list InputFeatures) :
  convert_examples_to_relation_extraction_features tokenize
    convert_tokens_to_ids encode_plus label2idx max_length examples
  = Ok features ->
  length features = length examples /\
  forall i example, examples !! i = Some example ->
    (exists feature l v,
        features !! i = Some feature /\
        Examples.label example = Some l /\ label2idx !! l = Some v /\
        Loader.label feature = Z.of_nat v) /\
    (i < 3 -> text_b example <> None).
Proof.
  intros H. apply convert_from_Ok in H as (new & -> & Hlen & Hrows).
  split; [exact Hlen|]. intros i example Hi.
  destruct (Hrows i example Hi) as (f & Hf & Hc).
  apply convert_example_Ok in Hc as [(l & v & Hl & Hv & Hfl) Hb].
  split; [now exists f, l, v|exact Hb].
Qed.

(** X13 on one example of the Sep processor, with a tokenizer that gives
    the length of each word as its id. *)
Lemma convert_examples_features_witness :
  length [ {| input_ids := [4; 1; 4; 4; 1; 4]%Z;
              attention_mask := [1; 1; 1; 1; 1; 1]%Z;
              token_type_ids := None; label := 1%Z |} ]
  = length [ {| guid := "train-1"; text_a := "[s1] x [e1]";
                text_b := Some "[s2] y [e2]"; Examples.label := Some "yes" |} ].
Proof.
  apply (convert_examples_features Text.split
           (map (fun w => Z.of_nat (String.length w)))
           (fun a b _ => Ok (a ++ default [] b,
                             map (fun _ => 1%Z) (a ++ default [] b), None))
           (<["no" := 0]> (<["yes" := 1]> ∅)) 128).
  vm_compute. reflexivity.
Defined.

End Features.

(** ** More on [get_labels] *)

Module LabelsFacts.
Import Labels.

Lemma collect_labels_S_raises (i : nat) (lines : list (list string))
    (acc : gset string) :
  [] ∈ lines -> collect_labels (S i) lines acc = Raise IndexError.
Proof.
  revert i acc. induction lines as [|line lines IH]; intros i acc Hin.
  - inversion Hin.
  - simpl. destruct line as [|l rest]; [reflexivity|].
    apply IH. apply elem_of_cons in Hin as [Hin|Hin]; [discriminate|exact Hin].
Qed.

(** X14. [get_labels] raises [IndexError] as soon as a row after the header
    has no column at all (a blank line of the file), whatever the other rows
    hold. The header row itself is never read: a file of at most one row,
    empty or not, gives the empty set and empty maps. *)
Theorem get_labels_blank_row
    (set_iter : gset string -> list string)
    (dict_items : gmap string nat -> list (string * nat)) :
  (forall lines, [] ∈ tail lines ->
     get_labels set_iter dict_items lines = Raise IndexError) /\
  (forall lines, length lines <= 1 ->
     set_iter ∅ = [] -> dict_items ∅ = [] ->
     get_labels set_iter dict_items lines = Ok (∅, ∅, ∅)).
Proof.
  split.
  - intros lines Hin. unfold get_labels.
    destruct lines as [|header rows]; simpl in *; [inversion Hin|].
    now rewrite (collect_labels_S_raises 0 rows ∅ Hin).
  - intros lines Hlen Hs Hd. unfold get_labels.
    assert (collect_labels 0 lines ∅ = Ok ∅) as ->.
    { destruct lines as [|header [|row rows]]; simpl in *;
        [reflexivity|reflexivity|lia]. }
    simpl. unfold label2idx_of. rewrite Hs. simpl.
    unfold idx2label_of. rewrite Hd. reflexivity.
Qed.

(** X14 on a file with a blank line between two rows. *)
Lemma get_labels_blank_row_witness :
  get_labels elements map_to_list
    [["label"; "s1"; "s2"]; ["yes"; "a"; "b"]; []; ["no"; "c"; "d"]]
  = Raise IndexError.
Proof.
  apply (proj1 (get_labels_blank_row elements map_to_list)).
  simpl. apply list_elem_of_further, list_elem_of_here.
Defined.

End LabelsFacts.

(** ** More on the schedule *)

Module ScheduleFacts.
Import Schedule.

Local Open Scope Q_scope.

Lemma decay_branch (nw nt s : Z) :
  (nw <= s)%Z -> (s <= nt)%Z -> (nw < nt)%Z ->
  lr_lambda nw nt s == inject_Z (nt - s) / inject_Z (nt - nw).
Proof.
  intros H1 H2 H3. unfold lr_lambda.
  destruct (Z.ltb_spec s nw); [lia|].
  rewrite Z.max_r by lia. apply Q.max_r. apply ratio_nonneg; lia.
Qed.

(** X15. With [0 <= num_warmup_steps < num_training_steps] the multiplier
    starts the decay at exactly 1, at step [num_warmup_steps]. Without
    warm-up ([num_warmup_steps = 0], what [warmup_ratio = 0] gives) the
    schedule is not switched off: the multiplier at step [s] is
    [(num_training_steps - s) / num_training_steps], below 1 from the
    first step on. *)
Theorem lr_lambda_peak_and_no_warmup (num_warmup_steps num_training_steps : Z) :
  (0 <= num_warmup_steps)%Z -> (num_warmup_steps < num_training_steps)%Z ->
  lr_lambda num_warmup_steps num_training_steps num_warmup_steps == 1 /\
  forall s, (0 < s)%Z -> (s <= num_training_steps)%Z ->
    lr_lambda 0 num_training_steps s
    == inject_Z (num_training_steps - s) / inject_Z num_training_steps /\
    lr_lambda 0 num_training_steps s < 1.
Proof.
  intros H0 Hlt. split.
  - rewrite decay_branch by lia.
    unfold Qdiv. apply Qmult_inv_r. intros E.
    assert (inject_Z (num_training_steps - num_warmup_steps) == inject_Z 0)
      as E' by exact E.
    rewrite inject_Z_injective in E'. lia.
  - intros s Hs Hle.
    assert (E : lr_lambda 0 num_training_steps s
                == inject_Z (num_training_steps - s) / inject_Z num_training_steps).
    { rewrite decay_branch by lia. now rewrite Z.sub_0_r. }
    split; [exact E|]. rewrite E.
    apply Qlt_shift_div_r.
    + change 0 with (inject_Z 0). rewrite <- Zlt_Qlt. lia.
    + rewrite Qmult_1_l, <- Zlt_Qlt. lia.
Qed.

(** X15 at 10 warm-up steps of 100, and at step 1 of 100 without warm-up. *)
Lemma lr_lambda_peak_witness :
  lr_lambda 10 100 10 == 1 /\ lr_lambda 0 100 1 < 1.
Proof.
  split.
  - apply (proj1 (lr_lambda_peak_and_no_warmup 10 100 ltac:(lia) ltac:(lia))).
  - apply (proj2 (lr_lambda_peak_and_no_warmup 0 100 ltac:(lia) ltac:(lia)) 1%Z);
      lia.
Defined.

End ScheduleFacts.
